(** * The ABS snapstore of etcd-backup-restore, embedded in Rocq

    A shallow embedding of [pkg/snapstore/abs_snapstore.go]: endpoint
    construction, credential resolution and its modification-time query, and
    the four facade operations Fetch, List, Save and Delete, together with the
    parts of Go's standard library they call ([strconv.ParseBool], [strings],
    [path], [fmt] with the verb [%010d], [encoding/base64]). *)

From Stdlib Require Import ZArith List String Ascii Bool Lia Permutation Sorted.
Import ListNotations.

Local Open Scope string_scope.
Local Open Scope list_scope.
Local Open Scope Z_scope.

(* ================================================================== *)
(** * Errors and results *)

(** An argument handed to a [fmt.Errorf] format. *)
Inductive fmtArg : Type :=
| argS (s : string)
| argZ (z : Z).

(** Go [error] values: an opaque error of the platform ([errors_New]), a
    [fmt.Errorf] with its format and arguments, or one that also wraps an
    error under the verb [%w]. *)
Inductive error : Type :=
| errors_New (msg : string)
| fmt_Errorf (format : string) (args : list fmtArg)
| fmt_Errorf_w (format : string) (args : list fmtArg) (wrapped : error).

(** A Go pair [(value, err)]. *)
Inductive result (A : Type) : Type :=
| Ok (a : A)
| Err (e : error).
Arguments Ok {A} a.
Arguments Err {A} e.

Definition isOk {A} (r : result A) : bool :=
  match r with Ok _ => true | Err _ => false end.

(* ================================================================== *)
(** * The environment and the calls that leave the package

    Every read of the process environment or the file system, and every call
    of a helper that lives in another file of the package, is logged, so that
    the order in which sources are probed is part of a run. *)

Inductive event : Type :=
| EvLookupEnv (key : string)
| EvReadFile (name : string)
| EvReadDir (name : string)
| EvFindFileWithExtensionInDir (dir ext : string)
| EvGetJSONCredentialModifiedTime (dir : string)
| EvGetLatestCredentialsModifiedTime (files : list string).

(** A computation that logs the events it performs. *)
Definition io (A : Type) : Type := (list event * A)%type.

Definition ret {A} (a : A) : io A := ([], a).

Definition bind {A B} (m : io A) (k : A -> io B) : io B :=
  let (t1, a) := m in
  let (t2, b) := k a in
  (t1 ++ t2, b).

Definition trace {A} (m : io A) : list event := fst m.
Definition value {A} (m : io A) : A := snd m.

Notation "x <- m ;; k" := (bind m (fun x => k))
  (at level 61, m at next level, right associativity).

(** [time.Time], as nanoseconds counted from the zero instant;
    [IsZero] holds of the zero instant only. *)
Definition Timestamp : Type := Z.
Definition zeroTime : Timestamp := 0.
Definition IsZero (t : Timestamp) : bool := t =? 0.

(** The [absCredentials] struct. *)
Record absCredentials : Type := mkAbsCredentials {
  BucketName : string;
  SecretKey : string;
  StorageAccount : string
}.

(** What the resolver reads from outside: the process environment, files and
    directories, the JSON decoder, and the outcomes of the three helpers of
    the package that the resolver calls and that are declared in another
    file. *)
Record World : Type := mkWorld {
  os_LookupEnv : string -> option string;
  os_ReadFile : string -> result string;
  os_ReadDir : string -> result (list string);
  json_Unmarshal : string -> result absCredentials;
  findFileWithExtensionInDir_outcome : string -> string -> result string;
  getJSONCredentialModifiedTime_outcome : string -> result Timestamp;
  getLatestCredentialsModifiedTime_outcome : list string -> result Timestamp
}.

(* ================================================================== *)
(** * Go's standard library *)

(** ** [strconv.ParseBool] *)
Definition strconv_ParseBool (str : string) : result bool :=
  if (str =? "1")%string || (str =? "t")%string || (str =? "T")%string
     || (str =? "TRUE")%string || (str =? "true")%string || (str =? "True")%string
  then Ok true
  else if (str =? "0")%string || (str =? "f")%string || (str =? "F")%string
     || (str =? "FALSE")%string || (str =? "false")%string || (str =? "False")%string
  then Ok false
  else Err (fmt_Errorf "strconv.ParseBool: parsing %q: invalid syntax" [argS str]).

(** ** [strings] *)

Definition strings_HasPrefix (s prefix : string) : bool := String.prefix prefix s.

Fixpoint strings_Contains (s substr : string) : bool :=
  String.prefix substr s
  || match s with
     | EmptyString => false
     | String _ s' => strings_Contains s' substr
     end.

Fixpoint drop (n : nat) (s : string) : string :=
  match n, s with
  | O, _ => s
  | S n', String _ s' => drop n' s'
  | S _, EmptyString => EmptyString
  end.

Definition strings_TrimPrefix (s prefix : string) : string :=
  if strings_HasPrefix s prefix then drop (String.length prefix) s else s.

(** [strings.Split(s, sep)] for a separator of one byte, the only way the
    package calls it: the pieces between the separators, empty ones kept. *)
Fixpoint strings_Split (s : string) (sep : ascii) : list string :=
  match s with
  | EmptyString => [EmptyString]
  | String c s' =>
    if (c =? sep)%char then EmptyString :: strings_Split s' sep
    else match strings_Split s' sep with
         | [] => [String c EmptyString]
         | piece :: pieces => String c piece :: pieces
         end
  end.

Definition strings_Join (elems : list string) (sep : string) : string :=
  String.concat sep elems.

(** ** [path.Clean] and [path.Join]

    [Clean] scans the path once and writes into a buffer, kept here with its
    last byte first.  [backtrack] is what a [..] element does to the buffer:
    it drops the last byte and goes on dropping while more than [dotdot] bytes
    are left and the byte dropped last is not a slash. *)
Fixpoint backtrack (dotdot : nat) (dropped : ascii) (rout : list ascii) : list ascii :=
  match rout with
  | [] => []
  | c :: rest =>
    if (dotdot <? List.length rout)%nat && negb (dropped =? "/")%char
    then backtrack dotdot c rest
    else rout
  end.

Definition atEndOrSlash (p : string) : bool :=
  match p with
  | EmptyString => true
  | String c _ => (c =? "/")%char
  end.

(** The loop of [Clean].  [inElem] tells that the scan is inside a real path
    element, whose bytes are copied up to the next slash. *)
Fixpoint cleanLoop (rooted inElem : bool) (p : string) (rout : list ascii)
    (dotdot : nat) : list ascii :=
  match p with
  | EmptyString => rout
  | String c p1 =>
    if inElem then
      if (c =? "/")%char then cleanLoop rooted false p1 rout dotdot
      else cleanLoop rooted true p1 (c :: rout) dotdot
    else if (c =? "/")%char then
      (* empty path element *)
      cleanLoop rooted false p1 rout dotdot
    else if (c =? ".")%char && atEndOrSlash p1 then
      (* . element *)
      cleanLoop rooted false p1 rout dotdot
    else
      let real :=
        let rout1 :=
          if (rooted && negb (List.length rout =? 1)%nat)
             || (negb rooted && negb (List.length rout =? 0)%nat)
          then "/"%char :: rout else rout in
        cleanLoop rooted true p1 (c :: rout1) dotdot in
      match p1 with
      | String c1 p2 =>
        if (c =? ".")%char && (c1 =? ".")%char && atEndOrSlash p2 then
          (* .. element: remove to last / *)
          if (dotdot <? List.length rout)%nat then
            match rout with
            | [] => cleanLoop rooted false p2 rout dotdot
            | c0 :: rest => cleanLoop rooted false p2 (backtrack dotdot c0 rest) dotdot
            end
          else if negb rooted then
            let rout1 := if (0 <? List.length rout)%nat then "/"%char :: rout else rout in
            let rout2 := "."%char :: "."%char :: rout1 in
            cleanLoop rooted false p2 rout2 (List.length rout2)
          else cleanLoop rooted false p2 rout dotdot
        else real
      | EmptyString => real
      end
  end.

Definition path_Clean (path : string) : string :=
  match path with
  | EmptyString => "."
  | String c p1 =>
    let rout :=
      if (c =? "/")%char then cleanLoop true false p1 ["/"%char] 1
      else cleanLoop false false path [] 0 in
    match rout with
    | [] => "."
    | _ => string_of_list_ascii (rev rout)
    end
  end.

(** The buffer [path.Join] fills before it cleans it: an element is appended
    once the buffer is not empty or the element is not, after a slash when
    the buffer is not empty. *)
Fixpoint joinBuf (buf : string) (elem : list string) : string :=
  match elem with
  | [] => buf
  | e :: rest =>
    if negb (String.length buf =? 0)%nat || negb (e =? "")%string then
      joinBuf ((if negb (String.length buf =? 0)%nat then buf ++ "/" else buf) ++ e) rest
    else joinBuf buf rest
  end.

Definition path_Join (elem : list string) : string :=
  let size := fold_left (fun n e => (n + String.length e)%nat) elem O in
  if (size =? 0)%nat then "" else path_Clean (joinBuf "" elem).

(* ================================================================== *)
(** * Constants of the package *)

Definition absCredentialDirectory : string := "AZURE_APPLICATION_CREDENTIALS".
Definition absCredentialJSONFile : string := "AZURE_APPLICATION_CREDENTIALS_JSON".
Definition AzuriteEndpoint : string := "AZURE_STORAGE_API_ENDPOINT".

(** Declared in another file of the package; the doc comment of
    [ConstructABSURI] gives its value. *)
Definition EnvAzureEmulatorEnabled : string := "AZURE_EMULATOR_ENABLED".

Section Resolver.

Variable w : World.

(** [brtypes.AzureBlobStorageHostName], declared in another package. *)
Variable AzureBlobStorageHostName : string.

Definition LookupEnv (key : string) : io (option string) :=
  ([EvLookupEnv key], os_LookupEnv w key).

Definition ReadFile (name : string) : io (result string) :=
  ([EvReadFile name], os_ReadFile w name).

Definition ReadDir (name : string) : io (result (list string)) :=
  ([EvReadDir name], os_ReadDir w name).

(** ** [ConstructABSURI] *)
Definition ConstructABSURI (accountName : string) : io (result string) :=
  let defaultURL := ("https://" ++ accountName ++ "." ++ AzureBlobStorageHostName)%string in
  emulatorEnabled <- LookupEnv EnvAzureEmulatorEnabled ;;
  match emulatorEnabled with
  | None => ret (Ok defaultURL)
  | Some emulatorEnabled =>
    match strconv_ParseBool emulatorEnabled with
    | Err err =>
      ret (Err (fmt_Errorf_w "invalid value for %s: %s, error: %w"
                  [argS EnvAzureEmulatorEnabled; argS emulatorEnabled] err))
    | Ok false => ret (Ok defaultURL)
    | Ok true =>
      endpoint <- LookupEnv AzuriteEndpoint ;;
      match endpoint with
      | None =>
        ret (Err (fmt_Errorf "%s environment variable not set while %s is true"
                    [argS AzuriteEndpoint; argS EnvAzureEmulatorEnabled]))
      | Some endpoint => ret (Ok (endpoint ++ "/" ++ accountName)%string)
      end
    end
  end.



(** [filepath.Join], which on the platforms the agent runs on is [path.Join]. *)
Definition filepath_Join (elem : list string) : string := path_Join elem.

(** The helpers of the package declared in another file: the call is logged
    and its outcome is the world's. *)
Definition findFileWithExtensionInDir (dir ext : string) : io (result string) :=
  ([EvFindFileWithExtensionInDir dir ext], findFileWithExtensionInDir_outcome w dir ext).

Definition getJSONCredentialModifiedTime (dir : string) : io (result Timestamp) :=
  ([EvGetJSONCredentialModifiedTime dir], getJSONCredentialModifiedTime_outcome w dir).

Definition getLatestCredentialsModifiedTime (files : list string) : io (result Timestamp) :=
  ([EvGetLatestCredentialsModifiedTime files], getLatestCredentialsModifiedTime_outcome w files).

(** ** Credential resolution *)

Definition isABSConfigEmpty (config : absCredentials) : option error :=
  if negb (String.length (SecretKey config) =? 0)%nat
     && negb (String.length (StorageAccount config) =? 0)%nat
  then None
  else Some (fmt_Errorf
    "azure object storage credentials: storageKey or storageAccount is missing" []).

Definition absCredentialsFromJSON (jsonData : string) : result absCredentials :=
  match json_Unmarshal w jsonData with
  | Err err => Err err
  | Ok absConfig => Ok absConfig
  end.

Definition readABSCredentialsJSON (filename : string) : io (result absCredentials) :=
  jsonData <- ReadFile filename ;;
  match jsonData with
  | Err err => ret (Err err)
  | Ok jsonData => ret (absCredentialsFromJSON jsonData)
  end.

(** The loop of [readABSCredentialFiles] over the directory's entries. *)
Fixpoint readCredentialEntries (dirname : string) (files : list string)
    (absConfig : absCredentials) : io (result absCredentials) :=
  match files with
  | [] => ret (Ok absConfig)
  | file :: files' =>
    if (file =? "storageAccount")%string then
      data <- ReadFile (dirname ++ "/storageAccount") ;;
      match data with
      | Err err => ret (Err err)
      | Ok data =>
        readCredentialEntries dirname files'
          (mkAbsCredentials (BucketName absConfig) (SecretKey absConfig) data)
      end
    else if (file =? "storageKey")%string then
      data <- ReadFile (dirname ++ "/storageKey") ;;
      match data with
      | Err err => ret (Err err)
      | Ok data =>
        readCredentialEntries dirname files'
          (mkAbsCredentials (BucketName absConfig) data (StorageAccount absConfig))
      end
    else readCredentialEntries dirname files' absConfig
  end.

Definition readABSCredentialFiles (dirname : string) : io (result absCredentials) :=
  files <- ReadDir dirname ;;
  match files with
  | Err err => ret (Err err)
  | Ok files =>
    absConfig <- readCredentialEntries dirname files (mkAbsCredentials "" "" "") ;;
    match absConfig with
    | Err err => ret (Err err)
    | Ok absConfig =>
      match isABSConfigEmpty absConfig with
      | Some err => ret (Err err)
      | None => ret (Ok absConfig)
      end
    end
  end.

(** The last source of [getCredentials]: the discrete files of the
    directory, after a second lookup of the directory variable. *)
Definition getCredentialsFromFiles (prefixString : string) : io (result (string * string)) :=
  dir <- LookupEnv (prefixString ++ absCredentialDirectory) ;;
  match dir with
  | Some dir =>
    credentials <- readABSCredentialFiles dir ;;
    match credentials with
    | Err _ => ret (Err (fmt_Errorf "error getting credentials from %v dir" [argS dir]))
    | Ok credentials => ret (Ok (StorageAccount credentials, SecretKey credentials))
    end
  | None => ret (Err (fmt_Errorf "unable to get credentials" []))
  end.

Definition getCredentials (prefixString : string) : io (result (string * string)) :=
  filename <- LookupEnv (prefixString ++ absCredentialJSONFile) ;;
  match filename with
  | Some filename =>
    credentials <- readABSCredentialsJSON filename ;;
    match credentials with
    | Err _ => ret (Err (fmt_Errorf "error getting credentials using %v file" [argS filename]))
    | Ok credentials => ret (Ok (StorageAccount credentials, SecretKey credentials))
    end
  | None =>
    dir <- LookupEnv (prefixString ++ absCredentialDirectory) ;;
    match dir with
    | Some dir =>
      jsonCredentialFile <- findFileWithExtensionInDir dir ".json" ;;
      match jsonCredentialFile with
      | Err err =>
        ret (Err (fmt_Errorf_w
          "error while finding a JSON credential file in %v directory with error: %w"
          [argS dir] err))
      | Ok jsonCredentialFile =>
        if negb (jsonCredentialFile =? "")%string then
          credentials <- readABSCredentialsJSON jsonCredentialFile ;;
          match credentials with
          | Err err =>
            ret (Err (fmt_Errorf_w
              "error getting credentials using %v JSON file in a directory with error: %w"
              [argS jsonCredentialFile] err))
          | Ok credentials => ret (Ok (StorageAccount credentials, SecretKey credentials))
          end
        else
          (* Non JSON credential files might exist in the credential directory *)
          getCredentialsFromFiles prefixString
      end
    | None => getCredentialsFromFiles prefixString
    end
  end.

(** ** [GetABSCredentialsLastModifiedTime] *)

(** What follows the probe for a JSON file in the directory: the discrete
    files of the directory, then the file of the JSON variable. *)
Definition lastModifiedTimeOfFiles : io (result Timestamp) :=
  dir <- LookupEnv absCredentialDirectory ;;
  match dir with
  | Some dir =>
    let credentialFiles :=
      map (fun f => filepath_Join [dir; f]) ["storageKey"; "storageAccount"] in
    absTimeStamp <- getLatestCredentialsModifiedTime credentialFiles ;;
    match absTimeStamp with
    | Err err =>
      ret (Err (fmt_Errorf_w
        "failed to get ABS credential timestamp from the directory %v with error: %w"
        [argS dir] err))
    | Ok absTimeStamp => ret (Ok absTimeStamp)
    end
  | None =>
    filename <- LookupEnv absCredentialJSONFile ;;
    match filename with
    | Some filename =>
      absTimeStamp <- getLatestCredentialsModifiedTime [filename] ;;
      match absTimeStamp with
      | Err err =>
        ret (Err (fmt_Errorf_w
          "failed to fetch file information of the ABS JSON credential file %v with error: %w"
          [argS filename] err))
      | Ok absTimeStamp => ret (Ok absTimeStamp)
      end
    | None =>
      ret (Err (fmt_Errorf "no environment variable set for the ABS credential file" []))
    end
  end.

Definition GetABSCredentialsLastModifiedTime : io (result Timestamp) :=
  dir <- LookupEnv absCredentialDirectory ;;
  match dir with
  | Some dir =>
    modificationTimeStamp <- getJSONCredentialModifiedTime dir ;;
    match modificationTimeStamp with
    | Err err =>
      ret (Err (fmt_Errorf_w
        "failed to fetch credential modification time for ABS with error: %w" [] err))
    | Ok modificationTimeStamp =>
      if negb (IsZero modificationTimeStamp) then ret (Ok modificationTimeStamp)
      else
        (* Non JSON credential files might exist in the credential directory *)
        lastModifiedTimeOfFiles
    end
  | None => lastModifiedTimeOfFiles
  end.

End Resolver.

(* ================================================================== *)
(** * Machine integers, [fmt] and [encoding/base64] *)

(** The value an [int64] holds after an operation whose exact result is [z]. *)
Definition wrap64 (z : Z) : Z := (z + 2 ^ 63) mod 2 ^ 64 - 2 ^ 63.

Definition maxInt64 : Z := 2 ^ 63 - 1.

(** The decimal digits of a number that is not negative, prepended to [acc]. *)
Fixpoint digitsOf (fuel : nat) (n : Z) (acc : string) : string :=
  let acc' := String (ascii_of_nat (48 + Z.to_nat (n mod 10))) acc in
  match fuel with
  | O => acc'
  | S fuel' => if n <? 10 then acc' else digitsOf fuel' (n / 10) acc'
  end.

Fixpoint zeros (n : nat) : string :=
  match n with
  | O => EmptyString
  | S n' => String "0" (zeros n')
  end.

(** [fmt.Sprintf("%010d", n)] for an [int64]: the sign if any, then zeros up
    to a width of ten bytes, then the digits. *)
Definition Sprintf_010d (n : Z) : string :=
  let digits := digitsOf 19 (Z.abs n) "" in
  if n <? 0 then "-" ++ zeros (9 - String.length digits) ++ digits
  else zeros (10 - String.length digits) ++ digits.

Definition base64Alphabet : list ascii :=
  list_ascii_of_string "ABCDEFGHIJKLMNOPQRSTUVWXYZabcdefghijklmnopqrstuvwxyz0123456789+/".

Definition base64Char (i : N) : ascii := nth (N.to_nat i) base64Alphabet "A"%char.

(** [base64.StdEncoding.EncodeToString]: three bytes give four characters,
    and a last group of one or two bytes is padded with [=]. *)
Fixpoint base64Encode (src : list ascii) : list ascii :=
  match src with
  | [] => []
  | [a] =>
    let v := (N_of_ascii a * 65536)%N in
    [base64Char (v / 262144); base64Char ((v / 4096) mod 64); "="%char; "="%char]
  | [a; b] =>
    let v := (N_of_ascii a * 65536 + N_of_ascii b * 256)%N in
    [base64Char (v / 262144); base64Char ((v / 4096) mod 64);
     base64Char ((v / 64) mod 64); "="%char]
  | a :: b :: c :: rest =>
    let v := (N_of_ascii a * 65536 + N_of_ascii b * 256 + N_of_ascii c)%N in
    base64Char (v / 262144) :: base64Char ((v / 4096) mod 64)
    :: base64Char ((v / 64) mod 64) :: base64Char (v mod 64) :: base64Encode rest
  end.

Definition base64_EncodeToString (src : string) : string :=
  string_of_list_ascii (base64Encode (list_ascii_of_string src)).

(** The block identifier of part [partNumber], as both [Save] and
    [uploadBlock] build it. *)
Definition blockIDOf (partNumber : Z) : string :=
  base64_EncodeToString (Sprintf_010d partNumber).

(** [sort.Sort], as the insertion sort it runs on a short slice: each element
    in turn moves left while it is less than its left neighbour.  (On a long
    slice Go runs another in-place sort, which may leave in another order the
    elements that [less] does not separate.)  [rsorted] is the sorted part,
    its last element first. *)
Fixpoint insertLeft {A} (less : A -> A -> bool) (x : A) (rsorted : list A) : list A :=
  match rsorted with
  | [] => [x]
  | y :: rest => if less x y then y :: insertLeft less x rest else x :: rsorted
  end.

Definition sort_Sort {A} (less : A -> A -> bool) (data : list A) : list A :=
  rev (fold_left (fun rsorted x => insertLeft less x rsorted) data []).

(* ================================================================== *)
(** * The snapstore *)

(** Modelled from the spec: [brtypes.Snapshot] is declared in another
    package; section 3 gives it a prefix, a directory and a name, the three
    fields the snapstore reads. *)
Record Snapshot : Type := mkSnapshot {
  Prefix : string;
  SnapDir : string;
  SnapName : string
}.

(** The fields of [ABSSnapStore] but the client, which is the [Backend]. *)
Record ABSSnapStore : Type := mkABSSnapStore {
  container : string;
  prefix : string;
  maxParallelChunkUploads : Z;
  minChunkSize : Z;
  tempDir : string
}.

(** The [chunk] and [chunkUploadResult] structs, with the fields the
    snapstore reads and writes. *)
Record chunk : Type := mkChunk {
  offset : Z;
  size : Z;
  attempt : Z;
  id : Z
}.

Record chunkUploadResult : Type := mkChunkUploadResult {
  err : option error;
  chunkOf : chunk
}.

(** A call on the container client or on a block blob client of the blob
    named, or a warning written to the log. *)
Inductive call : Type :=
| CallNextPage (listPrefix : string)
| CallDownloadStream (blobName : string)
| CallDelete (blobName : string)
| CallStageBlock (blobName base64BlockID : string) (sectionOffset sectionSize : Z)
| CallCommitBlockList (blobName : string) (base64BlockIDs : list string)
| LogWarnf (blobName : string).

(** What the calls answer.  A pager is the list of its pages, each the blob
    names of its segment or the error of its fetch. *)
Record Backend : Type := mkBackend {
  ListBlobsFlatPager : string -> list (result (list string));
  DownloadStream_outcome : string -> result string;
  Delete_outcome : string -> option error;
  StageBlock_outcome : string -> string -> Z -> Z -> option error;
  CommitBlockList_outcome : string -> list string -> option error
}.

(** A local file, seen through [Stat]. *)
Record File : Type := mkFile {
  fileSize : Z;
  statErr : option error
}.

Definition Stat (file : File) : result Z :=
  match statErr file with
  | Some e => Err e
  | None => Ok (fileSize file)
  end.

(** The local side of [Save]: whether the temporary file can be created,
    what [io.Copy] returns for the caller's stream, and whether [Stat] of the
    temporary file fails. *)
Record Local : Type := mkLocal {
  CreateTemp_err : option error;
  Copy_written : Z;
  Copy_err : option error;
  tmpfile_statErr : option error
}.

(** How a call ends. *)
Inductive outcome : Type :=
| Returns (e : option error)
| Panics (msg : string)
| Blocks
| OutOfFuel.

(** How the workers of one [Save] ran: [picks] tells, each time a chunk
    completes, which of the chunks still queued it is (by position, modulo
    the number left), and [late] how many more results the workers deliver
    after the first failed one, before they all have seen the stop signal.
    [stoppedAfterSuccess] tells whether the stop signal is raised when the
    collector returns without an error: the collector is declared in another
    file, and neither the sources nor the specification tell. *)
Record Run : Type := mkRun {
  picks : list nat;
  late : nat;
  stoppedAfterSuccess : bool
}.

Fixpoint removeNth {A} (n : nat) (l : list A) : list A :=
  match n, l with
  | _, [] => []
  | O, _ :: l' => l'
  | S n', x :: l' => x :: removeNth n' l'
  end.

Fixpoint completionOrder (n : nat) (picks : list nat) (queue : list chunk) : list chunk :=
  match n, queue with
  | S n', c0 :: _ =>
    let i := (hd O picks mod List.length queue)%nat in
    nth i queue c0 :: completionOrder n' (tl picks) (removeNth i queue)
  | _, _ => []
  end.

(** The results that reach the result channel: all of them up to the first
    failed one, and [late] more. *)
Fixpoint delivered {R} (failed : R -> bool) (late : nat) (rs : list R) : list R :=
  match rs with
  | [] => []
  | r :: rest => if failed r then r :: firstn late rest else r :: delivered failed late rest
  end.

Section Snapstore.

Variable backend : Backend.

(** Declared in other files of the package: the two naming-version tags, the
    parser of object names, the order of [SnapList] and the prefix under
    which [Save] writes. *)
Variable backupVersionV1 backupVersionV2 : string.
Variable ParseSnapshot : string -> result Snapshot.
Variable Less : Snapshot -> Snapshot -> bool.
Variable adaptPrefix : Snapshot -> string -> string.

(** ** [Fetch] *)
Definition Fetch (a : ABSSnapStore) (snap : Snapshot) : result string * list call :=
  let blobName := path_Join [Prefix snap; SnapDir snap; SnapName snap] in
  match DownloadStream_outcome backend blobName with
  | Err e =>
    (Err (fmt_Errorf_w "failed to download the blob %s with error: %w" [argS blobName] e),
     [CallDownloadStream blobName])
  | Ok body => (Ok body, [CallDownloadStream blobName])
  end.

(** ** [Delete] *)
Definition Delete (a : ABSSnapStore) (snap : Snapshot) : option error * list call :=
  let blobName := path_Join [Prefix snap; SnapDir snap; SnapName snap] in
  match Delete_outcome backend blobName with
  | Some e =>
    (Some (fmt_Errorf_w "failed to delete blob %s with error: %w" [argS blobName] e),
     [CallDelete blobName])
  | None => (None, [CallDelete blobName])
  end.

(** ** [List] *)

Definition listingPrefix (a : ABSSnapStore) : string :=
  let prefixTokens := strings_Split (prefix a) "/" in
  path_Join [strings_Join (removelast prefixTokens) "/"].

(** The body of the loop over the blobs of one page. *)
Definition listBlob (prefix : string) (acc : list Snapshot * list call) (blobName : string)
    : list Snapshot * list call :=
  let (snapList, calls) := acc in
  if strings_Contains blobName backupVersionV1 || strings_Contains blobName backupVersionV2
  then
    let trimmed := strings_TrimPrefix blobName prefix in
    match ParseSnapshot (path_Join [prefix; trimmed]) with
    | Err _ => (snapList, calls ++ [LogWarnf blobName])
    | Ok s => (snapList ++ [s], calls)
    end
  else (snapList, calls).

(** The loop over the pages: while the pager has more, fetch the next. *)
Fixpoint listPages (prefix : string) (pager : list (result (list string)))
    (acc : list Snapshot * list call) : result (list Snapshot) * list call :=
  match pager with
  | [] => (Ok (fst acc), snd acc)
  | page :: pager' =>
    match page with
    | Err e =>
      (Err (fmt_Errorf_w "failed to list the blobs, error: %w" [] e),
       snd acc ++ [CallNextPage prefix])
    | Ok blobItems =>
      listPages prefix pager'
        (fold_left (listBlob prefix) blobItems (fst acc, snd acc ++ [CallNextPage prefix]))
    end
  end.

Definition List (a : ABSSnapStore) : result (list Snapshot) * list call :=
  let prefix := listingPrefix a in
  match listPages prefix (ListBlobsFlatPager backend prefix) ([], []) with
  | (Err e, calls) => (Err e, calls)
  | (Ok snapList, calls) => (Ok (sort_Sort Less snapList), calls)
  end.

(** ** [uploadBlock]

    The division by [chunkSize] panics in Go when [chunkSize] is zero; [Save]
    divides by the same number before it starts any worker, so no worker
    runs with a zero chunk size. *)
Definition uploadBlock (a : ABSSnapStore) (snap : Snapshot) (file : File)
    (offset chunkSize : Z) : option error * list call :=
  match Stat file with
  | Err e => (Some e, [])
  | Ok fileInfoSize =>
    let size := wrap64 (fileInfoSize - offset) in
    let size := if size >? chunkSize then chunkSize else size in
    let blobName := path_Join [adaptPrefix snap (prefix a); SnapDir snap; SnapName snap] in
    let partNumber := wrap64 (wrap64 (Z.quot offset chunkSize) + 1) in
    let blockID := blockIDOf partNumber in
    match StageBlock_outcome backend blobName blockID offset size with
    | Some e =>
      (Some (fmt_Errorf_w "failed to upload chunk offset: %d, blob: %s, error: %w"
               [argZ offset; argS blobName] e),
       [CallStageBlock blobName blockID offset size])
    | None => (None, [CallStageBlock blobName blockID offset size])
    end
  end.

(** One turn of [blockUploader]: a chunk taken from the queue is uploaded and
    its result sent. *)
Definition blockUploaderStep (a : ABSSnapStore) (snap : Snapshot) (file : File)
    (c : chunk) : chunkUploadResult * list call :=
  let (e, calls) := uploadBlock a snap file (offset c) (size c) in
  (mkChunkUploadResult e c, calls).

(** Modelled from the spec: [collectChunkUploadError] is declared in another
    file of the package.  Section 4.4, step 4: the collector drains exactly
    [noOfChunks] results, or fewer when it cancels; on the first error it
    raises the cancellation signal and in the end returns that first error.
    [None] is a collector that waits for a result that never comes. *)
Fixpoint collectChunkUploadError (resCh : list chunkUploadResult) (noOfChunks : nat)
    : option (option chunkUploadResult) :=
  match noOfChunks with
  | O => Some None
  | S remaining =>
    match resCh with
    | [] => None
    | chunkRes :: resCh' =>
      match err chunkRes with
      | Some _ => Some (Some chunkRes)
      | None => collectChunkUploadError resCh' remaining
      end
    end
  end.

(** ** [Save] *)

(** The loop that queues the chunks. *)
Fixpoint queueChunks (fuel : nat) (size chunkSize offset index : Z) : option (list chunk) :=
  if offset <? size then
    match fuel with
    | O => None
    | S fuel' =>
      option_map (cons (mkChunk offset chunkSize 0 index))
        (queueChunks fuel' size chunkSize (wrap64 (offset + chunkSize)) (wrap64 (index + 1)))
    end
  else Some [].

(** The loop that builds the block list. *)
Fixpoint blockListFrom (fuel : nat) (partNumber noOfChunks : Z) : option (list string) :=
  if partNumber <=? noOfChunks then
    match fuel with
    | O => None
    | S fuel' =>
      option_map (cons (blockIDOf partNumber))
        (blockListFrom fuel' (wrap64 (partNumber + 1)) noOfChunks)
    end
  else Some [].

Definition noOfChunksOf (size chunkSize : Z) : Z :=
  let noOfChunks := wrap64 (Z.quot size chunkSize) in
  if negb (Z.rem size chunkSize =? 0) then wrap64 (noOfChunks + 1) else noOfChunks.

(** The results the workers deliver for the chunks queued, with the calls
    they make: none without a worker. *)
Definition workerResults (a : ABSSnapStore) (snap : Snapshot) (tmpfile : File)
    (run : Run) (chunks : list chunk) : list (chunkUploadResult * list call) :=
  if maxParallelChunkUploads a <=? 0 then []
  else
    delivered (fun rc => match err (fst rc) with Some _ => true | None => false end)
      (late run)
      (map (blockUploaderStep a snap tmpfile)
           (completionOrder (List.length chunks) (picks run) chunks)).

(** What [Save] has when all chunks are queued: their number as computed,
    the chunks queued, and what the workers deliver for them. *)
Record Uploads : Type := mkUploads {
  noOfChunks : Z;
  queued : list chunk;
  results : list (chunkUploadResult * list call)
}.

(** [Save] up to the collection of the results: either it has ended, or the
    chunks are queued and the workers run. *)
Definition uploadChunks (fuel : nat) (local : Local) (run : Run) (a : ABSSnapStore)
    (snap : Snapshot) : (outcome * list call) + Uploads :=
  match CreateTemp_err local with
  | Some e =>
    inl (Returns (Some (fmt_Errorf_w "failed to create snapshot tempfile: %w" [] e)), [])
  | None =>
    let size := Copy_written local in
    match Copy_err local with
    | Some e =>
      inl (Returns (Some (fmt_Errorf_w "failed to save snapshot to tmpfile: %w" [] e)), [])
    | None =>
      let tmpfile := mkFile size (tmpfile_statErr local) in
      let chunkSize := minChunkSize a in
      if chunkSize =? 0 then inl (Panics "integer divide by zero", [])
      else
        let noOfChunks := noOfChunksOf size chunkSize in
        if noOfChunks <? 0 then inl (Panics "makechan: size out of range", [])
        else
          match queueChunks fuel size chunkSize 0 1 with
          | None => inl (OutOfFuel, [])
          | Some chunks =>
            inr (mkUploads noOfChunks chunks (workerResults a snap tmpfile run chunks))
          end
    end
  end.

(** [wg.Wait()] of line 349 returns when every worker has returned.  A
    worker returns when it sees the stop signal raised, for nothing closes the
    queue of chunks; without a worker there is nobody to wait for. *)
Definition workersReturn (a : ABSSnapStore) (stopped : bool) : bool :=
  (maxParallelChunkUploads a <=? 0) || stopped.

(** After the collector [Save] waits for the workers.  A collector that
    returns an error has raised the stop signal, so the workers return; after
    a collector that returns nil they return when the signal is raised all
    the same, or else [Save] waits for ever. *)
Definition Save (fuel : nat) (local : Local) (run : Run) (a : ABSSnapStore)
    (snap : Snapshot) : outcome * list call :=
  match uploadChunks fuel local run a snap with
  | inl ended => ended
  | inr uploads =>
    let noOfChunks := noOfChunks uploads in
    let calls := List.concat (map snd (results uploads)) in
    match collectChunkUploadError (map fst (results uploads)) (Z.to_nat noOfChunks) with
    | None => (Blocks, calls)
    | Some (Some snapshotErr) =>
      (Returns (Some
         (match err snapshotErr with
          | Some e =>
            fmt_Errorf_w "failed uploading chunk, id: %d, offset: %d, error: %w"
              [argZ (id (chunkOf snapshotErr)); argZ (offset (chunkOf snapshotErr))] e
          | None =>
            fmt_Errorf "failed uploading chunk, id: %d, offset: %d, error: %w"
              [argZ (id (chunkOf snapshotErr)); argZ (offset (chunkOf snapshotErr))]
          end)), calls)
    | Some None =>
      if negb (workersReturn a (stoppedAfterSuccess run)) then (Blocks, calls)
      else
      let blobName := path_Join [adaptPrefix snap (prefix a); SnapDir snap; SnapName snap] in
      match blockListFrom fuel 1 noOfChunks with
      | None => (OutOfFuel, calls)
      | Some blockList =>
        match CommitBlockList_outcome backend blobName blockList with
        | Some e =>
          (Returns (Some (fmt_Errorf_w
             "failed uploading blocklist for snapshot with error: %w" [] e)),
           calls ++ [CallCommitBlockList blobName blockList])
        | None => (Returns None, calls ++ [CallCommitBlockList blobName blockList])
        end
      end
    end
  end.


Definition chunkUploadResults (fuel : nat) (local : Local) (run : Run) (a : ABSSnapStore)
    (snap : Snapshot) : list chunkUploadResult :=
  match uploadChunks fuel local run a snap with
  | inl _ => []
  | inr uploads => map fst (results uploads)
  end.

End Snapstore.

(** The sizes for which no [int64] of [Save] wraps around: a size that is
    not negative, a positive chunk size, and their sum an [int64]. *)
Definition sizesInRange (size chunkSize : Z) : Prop :=
  0 <= size /\ 0 < chunkSize /\ size + chunkSize <= maxInt64.

(** The quotient of [size] by [chunkSize], rounded up. *)
Definition ceilDiv (size chunkSize : Z) : Z := (size + chunkSize - 1) / chunkSize.

(** The chunk of sequence index [k], counted from zero. *)
Definition chunkAt (chunkSize : Z) (k : nat) : chunk :=
  mkChunk (Z.of_nat k * chunkSize) chunkSize 0 (Z.of_nat k + 1).


(* ================================================================== *)
(** * Concrete worlds *)

(** A finite table as a lookup function. *)
Fixpoint lookup {A} (table : list (string * A)) (key : string) : option A :=
  match table with
  | [] => None
  | (k, v) :: table' => if (k =? key)%string then Some v else lookup table' key
  end.

Definition notExist (name : string) : error :=
  fmt_Errorf "open %s: no such file or directory" [argS name].

Definition readFrom {A} (table : list (string * A)) (name : string) : result A :=
  match lookup table name with
  | Some v => Ok v
  | None => Err (notExist name)
  end.

(** A world with the given environment, files (name, content) and
    directories (name, entries); [decode] is the JSON decoder, and the three
    helpers answer from the tables [found], [jsonTimes] and [times]. *)
Definition worldOf (env : list (string * string)) (files : list (string * string))
    (dirs : list (string * list string))
    (decode : string -> result absCredentials)
    (found : list (string * string))
    (jsonTimes : list (string * Timestamp))
    (times : list (string * Timestamp)) : World :=
  mkWorld (lookup env) (readFrom files) (readFrom dirs) decode
    (fun dir _ => readFrom found dir)
    (fun dir => readFrom jsonTimes dir)
    (fun names =>
       fold_left (fun acc name =>
                    match acc, readFrom times name with
                    | Ok t, Ok t' => Ok (Z.max t t')
                    | Err e, _ => Err e
                    | _, Err e => Err e
                    end) names (Ok zeroTime)).

(** A decoder that knows one document. *)
Definition decodeOnly (doc : string) (c : absCredentials) (jsonData : string)
    : result absCredentials :=
  if (jsonData =? doc)%string then Ok c
  else Err (errors_New "invalid character looking for beginning of value").

(** The emulator is switched on and no emulator endpoint is given. *)
Definition emulatorWithoutEndpoint : World :=
  worldOf [("AZURE_EMULATOR_ENABLED", "true")] [] [] (decodeOnly "" (mkAbsCredentials "" "" ""))
    [] [] [].

(** The document of the examples; the decoder is part of the world, so the
    text only has to be told apart from other texts. *)
Definition credentialsDoc : string := "{storageAccount:jsonAccount,storageKey:jsonKey}".

Definition jsonCredentials : absCredentials := mkAbsCredentials "" "jsonKey" "jsonAccount".

(** Both variables are set: the JSON variable names a file with one set of
    credentials, the directory variable a directory with the two discrete
    files and no JSON file. *)
Definition bothVariablesSet : World :=
  worldOf
    [("AZURE_APPLICATION_CREDENTIALS_JSON", "/creds/credentials.json");
     ("AZURE_APPLICATION_CREDENTIALS", "/creds/dir")]
    [("/creds/credentials.json", credentialsDoc);
     ("/creds/dir/storageAccount", "dirAccount");
     ("/creds/dir/storageKey", "dirKey")]
    [("/creds/dir", ["storageAccount"; "storageKey"])]
    (decodeOnly credentialsDoc jsonCredentials)
    [("/creds/dir", "")]
    [("/creds/dir", zeroTime)]
    [("/creds/credentials.json", 100); ("/creds/dir/storageKey", 200);
     ("/creds/dir/storageAccount", 300)].

(** Only the directory variable is set, and the directory holds a JSON file
    that does not decode, beside the two discrete files. *)
Definition directoryWithBrokenJSON : World :=
  worldOf
    [("AZURE_APPLICATION_CREDENTIALS", "/creds/dir")]
    [("/creds/dir/credentials.json", "{storageAccount:");
     ("/creds/dir/storageAccount", "dirAccount");
     ("/creds/dir/storageKey", "dirKey")]
    [("/creds/dir", ["credentials.json"; "storageAccount"; "storageKey"])]
    (decodeOnly credentialsDoc jsonCredentials)
    [("/creds/dir", "/creds/dir/credentials.json")]
    [("/creds/dir", 50)]
    [("/creds/dir/credentials.json", 50); ("/creds/dir/storageKey", 200);
     ("/creds/dir/storageAccount", 300)].

(** Only the directory variable is set, and the directory holds the two
    discrete files and no JSON file. *)
Definition directoryWithFiles : World :=
  worldOf
    [("AZURE_APPLICATION_CREDENTIALS", "/creds/dir")]
    [("/creds/dir/storageAccount", "dirAccount");
     ("/creds/dir/storageKey", "dirKey")]
    [("/creds/dir", ["storageAccount"; "storageKey"])]
    (decodeOnly credentialsDoc jsonCredentials)
    [("/creds/dir", "")]
    [("/creds/dir", zeroTime)]
    [("/creds/dir/storageKey", 200); ("/creds/dir/storageAccount", 300)].

(** ** A store, a snapshot and backends for the examples *)

(** A prefix that needs no adapting. *)
Definition keepPrefix (snap : Snapshot) (snapstorePrefix : string) : string :=
  snapstorePrefix.

Definition exampleStore : ABSSnapStore :=
  mkABSSnapStore "backups" "etcd-main/v2" 2 10 "/tmp".

Definition exampleSnap : Snapshot :=
  mkSnapshot "etcd-main/v2" "Backup-1518427675" "Full-00000000-00000120-1518427675".

(** A stream of [n] bytes copied without error into a temporary file. *)
Definition copied (n : Z) : Local := mkLocal None n None None.

(** A backend on which every call succeeds and the listing has no page. *)
Definition okBackend : Backend :=
  mkBackend (fun _ => []) (fun _ => Ok "") (fun _ => None)
    (fun _ _ _ _ => None) (fun _ _ => None).

(** A backend that refuses to stage the second block. *)
Definition secondBlockFails : Backend :=
  mkBackend (fun _ => []) (fun _ => Ok "") (fun _ => None)
    (fun _ blockID _ _ =>
       if (blockID =? blockIDOf 2)%string
       then Some (errors_New "RESPONSE 500: InternalError") else None)
    (fun _ _ => None).

(** A run in which the second chunk completes first, one more result is
    delivered after a failed one, and the workers are stopped after the last
    result. *)
Definition secondFirst : Run := mkRun [1; 0; 0]%nat 1 true.




(* ================================================================== *)
(** * Notions the statements use *)

(** A blob name that carries one of the two version tags. *)
Definition tagged (v1 v2 blobName : string) : bool :=
  strings_Contains blobName v1 || strings_Contains blobName v2.

(** The name [List] hands to the parser for a blob. *)
Definition parsedName (prefix blobName : string) : string :=
  path_Join [prefix; strings_TrimPrefix blobName prefix].

(** What one listed blob adds to the list of snapshots, and to the log. *)
Definition snapshotsOfBlob (v1 v2 : string) (parse : string -> result Snapshot)
    (prefix blobName : string) : list Snapshot :=
  if tagged v1 v2 blobName then
    match parse (parsedName prefix blobName) with
    | Ok s => [s]
    | Err _ => []
    end
  else [].

Definition warningsOfBlob (v1 v2 : string) (parse : string -> result Snapshot)
    (prefix blobName : string) : list call :=
  if tagged v1 v2 blobName then
    match parse (parsedName prefix blobName) with
    | Ok _ => []
    | Err _ => [LogWarnf blobName]
    end
  else [].

(** The blob a call is made on. *)
Definition blobOf (c : call) : option string :=
  match c with
  | CallDownloadStream b | CallDelete b | CallStageBlock b _ _ _
  | CallCommitBlockList b _ => Some b
  | CallNextPage _ | LogWarnf _ => None
  end.

Definition isNextPage (c : call) : bool :=
  match c with
  | CallNextPage _ => true
  | _ => false
  end.

(** Path elements: a string without a slash; a plain element is one that is
    neither empty nor [.] nor [..]. *)
Fixpoint noSlash (s : string) : bool :=
  match s with
  | EmptyString => true
  | String c s' => negb (c =? "/")%char && noSlash s'
  end.

Definition plainElem (e : string) : bool :=
  noSlash e && negb (e =? "")%string && negb (e =? ".")%string && negb (e =? "..")%string.

Definition plainOrEmpty (e : string) : bool :=
  (e =? "")%string || plainElem e.

(** A relative path in the form [path.Clean] leaves it in, without [..]:
    plain elements with one slash between them. *)
Definition canonicalPath (p : string) : bool :=
  forallb plainElem (strings_Split p "/").

(** ** A parser, an order and listings for the examples *)

Definition fullSnapshot1 : Snapshot :=
  mkSnapshot "etcd-main/v2" "Backup-1518427675" "Full-00000000-00000120-1518427675".

Definition fullSnapshot2 : Snapshot :=
  mkSnapshot "etcd-main/v1" "Backup-1518427000" "Full-00000000-00000030-1518427000".

(** A parser that knows two object names. *)
Definition parseKnown (name : string) : result Snapshot :=
  match
    lookup
      [("etcd-main/v2/Backup-1518427675/Full-00000000-00000120-1518427675", fullSnapshot1);
       ("etcd-main/v1/Backup-1518427000/Full-00000000-00000030-1518427000", fullSnapshot2)]
      name
  with
  | Some s => Ok s
  | None => Err (fmt_Errorf "invalid snapshot name: %s" [argS name])
  end.

(** An order of snapshots: that of their names. *)
Definition lessByName (x y : Snapshot) : bool := String.ltb (SnapName x) (SnapName y).

Definition listing (pages : list (result (list string))) : Backend :=
  mkBackend (fun _ => pages) (fun _ => Ok "") (fun _ => None)
    (fun _ _ _ _ => None) (fun _ _ => None).

(** Two pages: the newer snapshot and a name that does not parse on the
    first, the older snapshot and a blob without a version tag on the
    second. *)
Definition twoPages : Backend :=
  listing
    [Ok ["etcd-main/v2/Backup-1518427675/Full-00000000-00000120-1518427675";
         "etcd-main/v2/Backup-1518427675/garbage"];
     Ok ["etcd-main/v1/Backup-1518427000/Full-00000000-00000030-1518427000";
         "etcd-main/lock"]].

(** Two pages that list the same object. *)
Definition samePageTwice : Backend :=
  listing
    [Ok ["etcd-main/v2/Backup-1518427675/Full-00000000-00000120-1518427675"];
     Ok ["etcd-main/v2/Backup-1518427675/Full-00000000-00000120-1518427675"]].

(** A store whose prefix ends in a slash. *)
Definition trailingSlashStore : ABSSnapStore :=
  mkABSSnapStore "backups" "etcd-main/v2/" 2 10 "/tmp".

(** ** Notions of the proofs *)

(** The twelve strings [strconv.ParseBool] accepts. *)
Definition boolLiterals : list string :=
  ["1"; "t"; "T"; "TRUE"; "true"; "True"; "0"; "f"; "F"; "FALSE"; "false"; "False"].

(** A worker calls the backend to stage a block, and for nothing else. *)
Definition isStageBlock (c : call) : bool :=
  match c with
  | CallStageBlock _ _ _ _ => true
  | _ => false
  end.

(** What a page adds to the calls: its fetch, then the warnings for its
    blobs. *)
Definition callsOfPage (v1 v2 : string) (parse : string -> result Snapshot)
    (prefix : string) (blobItems : list string) : list call :=
  CallNextPage prefix :: flat_map (warningsOfBlob v1 v2 parse prefix) blobItems.

Definition chars (s : string) : list ascii := list_ascii_of_string s.

(** The buffer before a real element is written: a slash is put first when
    the buffer is not empty. *)
Definition withSlash (rout : list ascii) : list ascii :=
  if negb (List.length rout =? 0)%nat then "/"%char :: rout else rout.

(** What the loop writes for a list of elements, each plain or empty. *)
Definition emit (elems : list string) (rout : list ascii) : list ascii :=
  fold_left (fun rout e => if (e =? "")%string then rout
                           else rev_append (chars e) (withSlash rout))
            elems rout.

(** The same in strings: each element that is not empty is appended, after a
    slash when something was written before. *)
Definition emitString (elems : list string) (out : string) : string :=
  fold_left (fun out e => if (e =? "")%string then out
                          else if (out =? "")%string then e else (out ++ "/" ++ e)%string)
            elems out.

(** What follows the first element: a slash and the element, for each
    element that is not empty. *)
Fixpoint tailOf (elems : list string) : string :=
  match elems with
  | [] => ""
  | e :: rest => ((if (e =? "")%string then "" else "/" ++ e) ++ tailOf rest)%string
  end.

(* ================================================================== *)
(** * The standard library at work *)

(** [path.Clean] on the rows of the table Go tests it with. *)
Example path_Clean_table :
  path_Clean "" = "."
  /\ path_Clean "abc" = "abc"
  /\ path_Clean "abc/def" = "abc/def"
  /\ path_Clean "a/b/c" = "a/b/c"
  /\ path_Clean "." = "."
  /\ path_Clean ".." = ".."
  /\ path_Clean "../.." = "../.."
  /\ path_Clean "../../abc" = "../../abc"
  /\ path_Clean "/abc" = "/abc"
  /\ path_Clean "/" = "/"
  /\ path_Clean "abc/" = "abc"
  /\ path_Clean "abc/def/" = "abc/def"
  /\ path_Clean "a/b/c/" = "a/b/c"
  /\ path_Clean "./" = "."
  /\ path_Clean "../" = ".."
  /\ path_Clean "../../" = "../.."
  /\ path_Clean "/abc/" = "/abc"
  /\ path_Clean "abc//def//ghi" = "abc/def/ghi"
  /\ path_Clean "//abc" = "/abc"
  /\ path_Clean "///abc" = "/abc"
  /\ path_Clean "//abc//" = "/abc"
  /\ path_Clean "abc//" = "abc"
  /\ path_Clean "abc/./def" = "abc/def"
  /\ path_Clean "/./abc/def" = "/abc/def"
  /\ path_Clean "abc/." = "abc"
  /\ path_Clean "abc/def/ghi/../jkl" = "abc/def/jkl"
  /\ path_Clean "abc/def/../ghi/../jkl" = "abc/jkl"
  /\ path_Clean "abc/def/.." = "abc"
  /\ path_Clean "abc/def/../.." = "."
  /\ path_Clean "/abc/def/../.." = "/"
  /\ path_Clean "abc/def/../../.." = ".."
  /\ path_Clean "/abc/def/../../.." = "/"
  /\ path_Clean "abc/def/../../../ghi/jkl/../../../mno" = "../../mno"
  /\ path_Clean "abc/./../def" = "def"
  /\ path_Clean "abc//./../def" = "def"
  /\ path_Clean "abc/../../././../def" = "../../def".
Proof. vm_compute. repeat split. Qed.

(** [path.Join] on the rows of the table Go tests it with. *)
Example path_Join_table :
  path_Join ["a"] = "a"
  /\ path_Join ["a"; "b"] = "a/b"
  /\ path_Join ["a"; ""] = "a"
  /\ path_Join [""; "b"] = "b"
  /\ path_Join ["/"; "a"] = "/a"
  /\ path_Join ["/"; ""] = "/"
  /\ path_Join ["a/"; "b"] = "a/b"
  /\ path_Join ["a/"; ""] = "a"
  /\ path_Join [""; ""] = ""
  /\ path_Join [] = ""
  /\ path_Join ["a"; "b"; "c"] = "a/b/c"
  /\ path_Join ["/"; "a/b"] = "/a/b"
  /\ path_Join ["//"; "a"] = "/a".
Proof. vm_compute. repeat split. Qed.

Example strings_Split_table :
  strings_Split "a/b//c/" "/" = ["a"; "b"; ""; "c"; ""]
  /\ strings_Split "" "/" = [""]
  /\ strings_Split "etcd-main/v2" "/" = ["etcd-main"; "v2"].
Proof. vm_compute. repeat split. Qed.

(** [base64.StdEncoding] on the test vectors of RFC 4648. *)
Example base64_table :
  base64_EncodeToString "" = ""
  /\ base64_EncodeToString "f" = "Zg=="
  /\ base64_EncodeToString "fo" = "Zm8="
  /\ base64_EncodeToString "foo" = "Zm9v"
  /\ base64_EncodeToString "foob" = "Zm9vYg=="
  /\ base64_EncodeToString "fooba" = "Zm9vYmE="
  /\ base64_EncodeToString "foobar" = "Zm9vYmFy".
Proof. vm_compute. repeat split. Qed.

Example Sprintf_010d_table :
  Sprintf_010d 1 = "0000000001"
  /\ Sprintf_010d 50000 = "0000050000"
  /\ Sprintf_010d 12345678901 = "12345678901"
  /\ Sprintf_010d (-5) = "-000000005"
  /\ blockIDOf 1 = "MDAwMDAwMDAwMQ==".
Proof. vm_compute. repeat split. Qed.

(* ================================================================== *)
(** * Endpoint construction *)


Lemma strconv_ParseBool_literals (str : string) :
  isOk (strconv_ParseBool str) = true <-> In str boolLiterals.
Proof.
  unfold strconv_ParseBool, boolLiterals. split.
  - intros H.
    repeat match type of H with
    | context [String.eqb ?s ?x] =>
      let E := fresh "E" in
      destruct (String.eqb s x) eqn:E;
      [apply String.eqb_eq in E; rewrite E; simpl; tauto | ]
    end.
    simpl in H. discriminate.
  - intros H. simpl in H.
    repeat (destruct H as [H | H]; [rewrite <- H; reflexivity|]). contradiction.
Qed.

(** C7, as amended: the production URL when the emulator flag is absent or
    parses to false; the emulator endpoint joined with the account when the
    flag parses to true and the endpoint variable is set; an error when the
    flag parses to true and the endpoint variable is not set, and an error
    for every flag value outside the twelve literals [strconv.ParseBool]
    accepts. *)
Theorem ConstructABSURI_cases :
  forall (w : World) (host accountName : string),
    let url := value (ConstructABSURI w host accountName) in
    let production := Ok ("https://" ++ accountName ++ "." ++ host)%string in
    (os_LookupEnv w EnvAzureEmulatorEnabled = None -> url = production)
    /\ (forall flag, os_LookupEnv w EnvAzureEmulatorEnabled = Some flag ->
          strconv_ParseBool flag = Ok false -> url = production)
    /\ (forall flag endpoint, os_LookupEnv w EnvAzureEmulatorEnabled = Some flag ->
          strconv_ParseBool flag = Ok true ->
          os_LookupEnv w AzuriteEndpoint = Some endpoint ->
          url = Ok (endpoint ++ "/" ++ accountName)%string)
    /\ (forall flag, os_LookupEnv w EnvAzureEmulatorEnabled = Some flag ->
          strconv_ParseBool flag = Ok true ->
          os_LookupEnv w AzuriteEndpoint = None ->
          url = Err (fmt_Errorf "%s environment variable not set while %s is true"
                       [argS AzuriteEndpoint; argS EnvAzureEmulatorEnabled]))
    /\ (forall flag, os_LookupEnv w EnvAzureEmulatorEnabled = Some flag ->
          ~ In flag boolLiterals -> isOk url = false).
Proof.
  intros w host accountName url production. subst url production.
  unfold ConstructABSURI, LookupEnv, bind, ret, value. simpl.
  repeat split.
  - intros ->. reflexivity.
  - intros flag -> ->. reflexivity.
  - intros flag endpoint -> -> H. simpl. rewrite H. reflexivity.
  - intros flag -> -> H. simpl. rewrite H. reflexivity.
  - intros flag -> Hflag.
    destruct (strconv_ParseBool flag) as [b|e] eqn:E.
    + exfalso. apply Hflag. apply strconv_ParseBool_literals. rewrite E. reflexivity.
    + reflexivity.
Qed.

(** C7 as the spec states it fails: the flag parses to true, and the result
    is an error, not the emulator URL, because the endpoint variable is not
    set. *)
Lemma ConstructABSURI_true_without_endpoint :
  os_LookupEnv emulatorWithoutEndpoint EnvAzureEmulatorEnabled = Some "true"
  /\ strconv_ParseBool "true" = Ok true
  /\ ConstructABSURI emulatorWithoutEndpoint "blob.core.windows.net" "account"
     = ([EvLookupEnv "AZURE_EMULATOR_ENABLED"; EvLookupEnv "AZURE_STORAGE_API_ENDPOINT"],
        Err (fmt_Errorf "%s environment variable not set while %s is true"
               [argS "AZURE_STORAGE_API_ENDPOINT"; argS "AZURE_EMULATOR_ENABLED"])).
Proof. repeat split. Qed.

(* ================================================================== *)
(** * Credential resolution *)

Local Arguments bind {A B} m k : simpl never.

Lemma value_bind {A B} (m : io A) (k : A -> io B) :
  value (bind m k) = value (k (value m)).
Proof. unfold value, bind. destruct m as [t a]. cbn [fst snd]. destruct (k a). reflexivity. Qed.

Lemma trace_bind {A B} (m : io A) (k : A -> io B) :
  trace (bind m k) = (trace m ++ trace (k (value m)))%list.
Proof.
  unfold trace, value, bind. destruct m as [t a]. cbn [fst snd]. destruct (k a). reflexivity.
Qed.

Lemma io_eta {A} (m : io A) : m = (trace m, value m).
Proof. destruct m. reflexivity. Qed.

(** What the loop over the directory's entries leaves in a field: what was
    there before, or the content of the file of that name, which is then an
    entry of the directory. *)
Lemma readCredentialEntries_ok (w : World) (dirname : string) :
  forall (files : list string) (c0 c : absCredentials),
    value (readCredentialEntries w dirname files c0) = Ok c ->
    (StorageAccount c = StorageAccount c0
     \/ (In "storageAccount" files
         /\ os_ReadFile w (dirname ++ "/storageAccount") = Ok (StorageAccount c)))
    /\ (SecretKey c = SecretKey c0
        \/ (In "storageKey" files
            /\ os_ReadFile w (dirname ++ "/storageKey") = Ok (SecretKey c))).
Proof.
  induction files as [|file files IH]; intros c0 c H.
  - simpl in H. injection H as <-. split; left; reflexivity.
  - cbn [readCredentialEntries] in H.
    destruct (String.eqb_spec file "storageAccount") as [->|Hacc].
    + rewrite value_bind in H. unfold ReadFile in H. cbn [value snd] in H.
      destruct (os_ReadFile w (dirname ++ "/storageAccount")) as [data|e] eqn:E;
        [|discriminate].
      apply IH in H. simpl in H. destruct H as [Ha Hk]. split.
      * right. destruct Ha as [Ha|[Hin Ha]].
        -- split; [left; reflexivity|]. rewrite Ha. reflexivity.
        -- split; [right; exact Hin | exact Ha].
      * destruct Hk as [Hk|[Hin Hk]]; [left; exact Hk | right; split; [right|]; assumption].
    + destruct (String.eqb_spec file "storageKey") as [->|Hkey].
      * rewrite value_bind in H. unfold ReadFile in H. cbn [value snd] in H.
        destruct (os_ReadFile w (dirname ++ "/storageKey")) as [data|e] eqn:E;
          [|discriminate].
        apply IH in H. simpl in H. destruct H as [Ha Hk]. split.
        -- destruct Ha as [Ha|[Hin Ha]]; [left; exact Ha | right; split; [right|]; assumption].
        -- right. destruct Hk as [Hk|[Hin Hk]].
           ++ split; [left; reflexivity|]. rewrite Hk. reflexivity.
           ++ split; [right; exact Hin | exact Hk].
      * apply IH in H. destruct H as [Ha Hk]. split.
        -- destruct Ha as [Ha|[Hin Ha]]; [left; exact Ha | right; split; [right|]; assumption].
        -- destruct Hk as [Hk|[Hin Hk]]; [left; exact Hk | right; split; [right|]; assumption].
Qed.

Lemma isABSConfigEmpty_None (c : absCredentials) :
  isABSConfigEmpty c = None -> SecretKey c <> "" /\ StorageAccount c <> "".
Proof.
  unfold isABSConfigEmpty.
  destruct (SecretKey c); destruct (StorageAccount c); simpl; intros H;
    try discriminate; split; discriminate.
Qed.

(** [readABSCredentialFiles] succeeds only when the directory lists both
    files and both are read and are not empty. *)
Lemma readABSCredentialFiles_ok (w : World) (dirname : string) (c : absCredentials) :
  value (readABSCredentialFiles w dirname) = Ok c ->
  exists files,
    os_ReadDir w dirname = Ok files
    /\ In "storageAccount" files /\ In "storageKey" files
    /\ os_ReadFile w (dirname ++ "/storageAccount") = Ok (StorageAccount c)
    /\ os_ReadFile w (dirname ++ "/storageKey") = Ok (SecretKey c)
    /\ StorageAccount c <> "" /\ SecretKey c <> "".
Proof.
  unfold readABSCredentialFiles. rewrite value_bind. unfold ReadDir at 1. cbn [value snd].
  destruct (os_ReadDir w dirname) as [files|e]; [|discriminate].
  rewrite value_bind.
  destruct (value (readCredentialEntries w dirname files (mkAbsCredentials "" "" "")))
    as [c'|e] eqn:E; [|discriminate].
  destruct (isABSConfigEmpty c') eqn:Hempty; [discriminate|].
  simpl. intros H. injection H as <-.
  apply isABSConfigEmpty_None in Hempty. destruct Hempty as [Hk Ha].
  apply readCredentialEntries_ok in E. simpl in E. destruct E as [Ea Ek].
  destruct Ea as [Ea|[Ina Ea]]; [contradiction|].
  destruct Ek as [Ek|[Ink Ek]]; [contradiction|].
  exists files. repeat split; assumption.
Qed.

(** With the JSON-file variable set, the run of [getCredentials] is the
    lookup of that variable and the read of the file it names. *)
Lemma getCredentials_json_file (w : World) (prefixString filename : string) :
  os_LookupEnv w (prefixString ++ absCredentialJSONFile) = Some filename ->
  getCredentials w prefixString =
  ([EvLookupEnv (prefixString ++ absCredentialJSONFile); EvReadFile filename],
   match os_ReadFile w filename with
   | Ok jsonData =>
     match json_Unmarshal w jsonData with
     | Ok c => Ok (StorageAccount c, SecretKey c)
     | Err _ => Err (fmt_Errorf "error getting credentials using %v file" [argS filename])
     end
   | Err _ => Err (fmt_Errorf "error getting credentials using %v file" [argS filename])
   end).
Proof.
  intros H.
  unfold getCredentials, readABSCredentialsJSON, absCredentialsFromJSON,
    LookupEnv, ReadFile, bind, ret.
  rewrite H. simpl.
  destruct (os_ReadFile w filename) as [jsonData|e]; simpl; [|reflexivity].
  destruct (json_Unmarshal w jsonData); reflexivity.
Qed.

(** C3: when the JSON-file variable is set, the whole run is one lookup of
    that variable and one read of the file it names, whatever the directory
    variable holds; when resolution reaches the discrete files (no JSON-file
    variable, a directory without a JSON file), it succeeds only with both
    files listed, read and not empty; and with neither variable set it fails
    with an error. *)
Theorem getCredentials_precedence :
  forall (w : World) (prefixString : string),
    (forall filename,
        os_LookupEnv w (prefixString ++ absCredentialJSONFile) = Some filename ->
        getCredentials w prefixString =
        ([EvLookupEnv (prefixString ++ absCredentialJSONFile); EvReadFile filename],
         match os_ReadFile w filename with
         | Ok jsonData =>
           match json_Unmarshal w jsonData with
           | Ok c => Ok (StorageAccount c, SecretKey c)
           | Err _ =>
             Err (fmt_Errorf "error getting credentials using %v file" [argS filename])
           end
         | Err _ => Err (fmt_Errorf "error getting credentials using %v file" [argS filename])
         end))
    /\ (forall dir account key,
          os_LookupEnv w (prefixString ++ absCredentialJSONFile) = None ->
          os_LookupEnv w (prefixString ++ absCredentialDirectory) = Some dir ->
          findFileWithExtensionInDir_outcome w dir ".json" = Ok "" ->
          value (getCredentials w prefixString) = Ok (account, key) ->
          exists files,
            os_ReadDir w dir = Ok files
            /\ In "storageAccount" files /\ In "storageKey" files
            /\ os_ReadFile w (dir ++ "/storageAccount") = Ok account
            /\ os_ReadFile w (dir ++ "/storageKey") = Ok key
            /\ account <> "" /\ key <> "")
    /\ (os_LookupEnv w (prefixString ++ absCredentialJSONFile) = None ->
        os_LookupEnv w (prefixString ++ absCredentialDirectory) = None ->
        getCredentials w prefixString =
        ([EvLookupEnv (prefixString ++ absCredentialJSONFile);
          EvLookupEnv (prefixString ++ absCredentialDirectory);
          EvLookupEnv (prefixString ++ absCredentialDirectory)],
         Err (fmt_Errorf "unable to get credentials" []))).
Proof.
  intros w prefixString. split; [|split].
  - intros filename H. apply getCredentials_json_file. exact H.
  - intros dir account key Hjson Hdir Hfind.
    unfold getCredentials. rewrite value_bind. unfold LookupEnv at 1. cbn [value snd].
    rewrite Hjson. rewrite value_bind. unfold LookupEnv at 1. cbn [value snd]. rewrite Hdir.
    rewrite value_bind. unfold findFileWithExtensionInDir at 1. cbn [value snd].
    rewrite Hfind. cbn [String.eqb negb].
    unfold getCredentialsFromFiles. rewrite value_bind.
    unfold LookupEnv at 1. cbn [value snd]. rewrite Hdir. rewrite value_bind.
    destruct (value (readABSCredentialFiles w dir)) as [c|e] eqn:E; [|discriminate].
    simpl. intros H. injection H as <- <-.
    apply readABSCredentialFiles_ok. exact E.
  - intros Hjson Hdir.
    unfold getCredentials, getCredentialsFromFiles, LookupEnv, bind, ret.
    rewrite Hjson, Hdir. reflexivity.
Qed.

(** C3 at work: with both variables set the credentials are those of the
    JSON file, and the directory is not touched. *)
Example getCredentials_both_set :
  getCredentials bothVariablesSet "" =
  ([EvLookupEnv "AZURE_APPLICATION_CREDENTIALS_JSON"; EvReadFile "/creds/credentials.json"],
   Ok ("jsonAccount", "jsonKey")).
Proof. reflexivity. Qed.

(** C3 at work: the discrete files of a directory without a JSON file. *)
Example getCredentials_discrete_files :
  getCredentials directoryWithFiles "" =
  ([EvLookupEnv "AZURE_APPLICATION_CREDENTIALS_JSON";
    EvLookupEnv "AZURE_APPLICATION_CREDENTIALS";
    EvFindFileWithExtensionInDir "/creds/dir" ".json";
    EvLookupEnv "AZURE_APPLICATION_CREDENTIALS";
    EvReadDir "/creds/dir"; EvReadFile "/creds/dir/storageAccount";
    EvReadFile "/creds/dir/storageKey"],
   Ok ("dirAccount", "dirKey")).
Proof. reflexivity. Qed.

(** C6: with the directory variable set and no JSON-file variable, a JSON
    file found in the directory that does not decode ends the resolution
    with an error after the read of that file, and the discrete files are not
    read; when no JSON file is found (the helper returns the empty name) the
    resolution goes on to the discrete files of the directory. *)
Theorem getCredentials_directory_json :
  forall (w : World) (prefixString dir : string),
    os_LookupEnv w (prefixString ++ absCredentialJSONFile) = None ->
    os_LookupEnv w (prefixString ++ absCredentialDirectory) = Some dir ->
    (forall jsonCredentialFile jsonData e,
        findFileWithExtensionInDir_outcome w dir ".json" = Ok jsonCredentialFile ->
        jsonCredentialFile <> "" ->
        os_ReadFile w jsonCredentialFile = Ok jsonData ->
        json_Unmarshal w jsonData = Err e ->
        getCredentials w prefixString =
        ([EvLookupEnv (prefixString ++ absCredentialJSONFile);
          EvLookupEnv (prefixString ++ absCredentialDirectory);
          EvFindFileWithExtensionInDir dir ".json";
          EvReadFile jsonCredentialFile],
         Err (fmt_Errorf_w
                "error getting credentials using %v JSON file in a directory with error: %w"
                [argS jsonCredentialFile] e)))
    /\ (findFileWithExtensionInDir_outcome w dir ".json" = Ok "" ->
        getCredentials w prefixString =
        (([EvLookupEnv (prefixString ++ absCredentialJSONFile);
           EvLookupEnv (prefixString ++ absCredentialDirectory);
           EvFindFileWithExtensionInDir dir ".json";
           EvLookupEnv (prefixString ++ absCredentialDirectory)]
          ++ trace (readABSCredentialFiles w dir))%list,
         match value (readABSCredentialFiles w dir) with
         | Ok c => Ok (StorageAccount c, SecretKey c)
         | Err _ => Err (fmt_Errorf "error getting credentials from %v dir" [argS dir])
         end)
        /\ hd_error (trace (readABSCredentialFiles w dir)) = Some (EvReadDir dir)).
Proof.
  intros w prefixString dir Hjson Hdir. split.
  - intros jsonCredentialFile jsonData e Hfind Hname Hread Hdecode.
    unfold getCredentials, findFileWithExtensionInDir, readABSCredentialsJSON,
      absCredentialsFromJSON, LookupEnv, ReadFile, bind, ret.
    rewrite Hjson, Hdir, Hfind.
    apply String.eqb_neq in Hname. rewrite Hname. cbn [negb].
    rewrite Hread, Hdecode. reflexivity.
  - intros Hfind. split.
    + rewrite (io_eta (getCredentials w prefixString)). f_equal.
      * unfold getCredentials. rewrite trace_bind. unfold LookupEnv at 1 2.
        cbn [trace value fst snd]. rewrite Hjson.
        rewrite trace_bind. unfold LookupEnv at 1 2. cbn [trace value fst snd].
        rewrite Hdir. rewrite trace_bind. unfold findFileWithExtensionInDir at 1 2.
        cbn [trace value fst snd]. rewrite Hfind. cbn [String.eqb negb].
        unfold getCredentialsFromFiles. rewrite trace_bind. unfold LookupEnv at 1 2.
        cbn [trace value fst snd]. rewrite Hdir. rewrite trace_bind.
        destruct (value (readABSCredentialFiles w dir)); cbn [ret trace fst];
          rewrite app_nil_r; reflexivity.
      * unfold getCredentials. rewrite value_bind. unfold LookupEnv at 1.
        cbn [value snd]. rewrite Hjson.
        rewrite value_bind. unfold LookupEnv at 1. cbn [value snd].
        rewrite Hdir. rewrite value_bind. unfold findFileWithExtensionInDir at 1.
        cbn [value snd]. rewrite Hfind. cbn [String.eqb negb].
        unfold getCredentialsFromFiles. rewrite value_bind. unfold LookupEnv at 1.
        cbn [value snd]. rewrite Hdir. rewrite value_bind.
        destruct (value (readABSCredentialFiles w dir)); reflexivity.
    + unfold readABSCredentialFiles. rewrite trace_bind. reflexivity.
Qed.

(** The two cases of C6 on concrete directories: one with a JSON file that
    does not decode, one without a JSON file. *)
Lemma getCredentials_directory_json_witness :
  getCredentials directoryWithBrokenJSON "" =
  ([EvLookupEnv "AZURE_APPLICATION_CREDENTIALS_JSON";
    EvLookupEnv "AZURE_APPLICATION_CREDENTIALS";
    EvFindFileWithExtensionInDir "/creds/dir" ".json";
    EvReadFile "/creds/dir/credentials.json"],
   Err (fmt_Errorf_w
          "error getting credentials using %v JSON file in a directory with error: %w"
          [argS "/creds/dir/credentials.json"]
          (errors_New "invalid character looking for beginning of value")))
  /\ getCredentials directoryWithFiles "" =
     ([EvLookupEnv "AZURE_APPLICATION_CREDENTIALS_JSON";
       EvLookupEnv "AZURE_APPLICATION_CREDENTIALS";
       EvFindFileWithExtensionInDir "/creds/dir" ".json";
       EvLookupEnv "AZURE_APPLICATION_CREDENTIALS";
       EvReadDir "/creds/dir"; EvReadFile "/creds/dir/storageAccount";
       EvReadFile "/creds/dir/storageKey"],
      Ok ("dirAccount", "dirKey")).
Proof.
  split.
  - exact (proj1 (getCredentials_directory_json directoryWithBrokenJSON "" "/creds/dir"
                    eq_refl eq_refl)
             "/creds/dir/credentials.json" "{storageAccount:"
             (errors_New "invalid character looking for beginning of value")
             eq_refl ltac:(discriminate) eq_refl eq_refl).
  - exact (proj1 (proj2 (getCredentials_directory_json directoryWithFiles "" "/creds/dir"
                           eq_refl eq_refl) eq_refl)).
Defined.

(** The order in which [GetABSCredentialsLastModifiedTime] probes: the
    directory variable first, both variables without a prefix.  With the
    directory variable set its result is that of the directory (the JSON
    file in it, else its two discrete files) and the JSON-file variable is
    not looked up; only without the directory variable does it take the time
    of the file the JSON-file variable names.  [getCredentials] looks the
    JSON-file variable up first and, when it is set, reads that file only;
    without it, it goes to the directory. *)
Theorem lastModifiedTime_directory_first :
  forall (w : World),
    (forall dir, os_LookupEnv w absCredentialDirectory = Some dir ->
        GetABSCredentialsLastModifiedTime w =
        match getJSONCredentialModifiedTime_outcome w dir with
        | Err e =>
          ([EvLookupEnv absCredentialDirectory; EvGetJSONCredentialModifiedTime dir],
           Err (fmt_Errorf_w
                  "failed to fetch credential modification time for ABS with error: %w" [] e))
        | Ok t =>
          if negb (IsZero t) then
            ([EvLookupEnv absCredentialDirectory; EvGetJSONCredentialModifiedTime dir], Ok t)
          else
            let credentialFiles :=
              [filepath_Join [dir; "storageKey"]; filepath_Join [dir; "storageAccount"]] in
            ([EvLookupEnv absCredentialDirectory; EvGetJSONCredentialModifiedTime dir;
              EvLookupEnv absCredentialDirectory;
              EvGetLatestCredentialsModifiedTime credentialFiles],
             match getLatestCredentialsModifiedTime_outcome w credentialFiles with
             | Ok t' => Ok t'
             | Err e =>
               Err (fmt_Errorf_w
                 "failed to get ABS credential timestamp from the directory %v with error: %w"
                 [argS dir] e)
             end)
        end)
    /\ (forall filename,
          os_LookupEnv w absCredentialDirectory = None ->
          os_LookupEnv w absCredentialJSONFile = Some filename ->
          GetABSCredentialsLastModifiedTime w =
          ([EvLookupEnv absCredentialDirectory; EvLookupEnv absCredentialDirectory;
            EvLookupEnv absCredentialJSONFile;
            EvGetLatestCredentialsModifiedTime [filename]],
           match getLatestCredentialsModifiedTime_outcome w [filename] with
           | Ok t => Ok t
           | Err e =>
             Err (fmt_Errorf_w
               "failed to fetch file information of the ABS JSON credential file %v with error: %w"
               [argS filename] e)
           end))
    /\ (forall filename,
          os_LookupEnv w absCredentialJSONFile = Some filename ->
          trace (getCredentials w "") =
          [EvLookupEnv absCredentialJSONFile; EvReadFile filename])
    /\ (forall dir,
          os_LookupEnv w absCredentialJSONFile = None ->
          os_LookupEnv w absCredentialDirectory = Some dir ->
          exists rest,
            trace (getCredentials w "") =
            ([EvLookupEnv absCredentialJSONFile; EvLookupEnv absCredentialDirectory;
              EvFindFileWithExtensionInDir dir ".json"] ++ rest)%list).
Proof.
  intros w. repeat split.
  - intros dir Hdir.
    unfold GetABSCredentialsLastModifiedTime, lastModifiedTimeOfFiles,
      getJSONCredentialModifiedTime, getLatestCredentialsModifiedTime, LookupEnv, bind, ret.
    rewrite Hdir.
    destruct (getJSONCredentialModifiedTime_outcome w dir) as [t|e]; [|reflexivity].
    destruct (IsZero t); cbn [negb]; [|reflexivity].
    cbn [map].
    destruct (getLatestCredentialsModifiedTime_outcome w _); reflexivity.
  - intros filename Hdir Hjson.
    unfold GetABSCredentialsLastModifiedTime, lastModifiedTimeOfFiles,
      getLatestCredentialsModifiedTime, LookupEnv, bind, ret.
    rewrite Hdir, Hjson.
    destruct (getLatestCredentialsModifiedTime_outcome w [filename]); reflexivity.
  - intros filename Hjson.
    rewrite (getCredentials_json_file w "" filename Hjson). reflexivity.
  - intros dir Hjson Hdir.
    unfold getCredentials. rewrite trace_bind. unfold LookupEnv at 1 2.
    cbn [trace value fst snd append]. rewrite Hjson.
    rewrite trace_bind. unfold LookupEnv at 1 2. cbn [trace value fst snd append].
    rewrite Hdir. rewrite trace_bind. unfold findFileWithExtensionInDir at 1 2.
    cbn [trace value fst snd]. eexists. cbn [app]. reflexivity.
Qed.

(** C2, the code at the failing input: with both variables set the
    credentials are read from the file the JSON-file variable names, and
    the modification time returned is that of the discrete files of the
    directory (300), which were not read, not that of the file read (100).
    The query is documented to return the time of the credential files, those
    needed to create the snapstore. *)
Lemma credential_sources_disagree :
  getCredentials bothVariablesSet "" =
  ([EvLookupEnv "AZURE_APPLICATION_CREDENTIALS_JSON"; EvReadFile "/creds/credentials.json"],
   Ok ("jsonAccount", "jsonKey"))
  /\ GetABSCredentialsLastModifiedTime bothVariablesSet =
     ([EvLookupEnv "AZURE_APPLICATION_CREDENTIALS";
       EvGetJSONCredentialModifiedTime "/creds/dir";
       EvLookupEnv "AZURE_APPLICATION_CREDENTIALS";
       EvGetLatestCredentialsModifiedTime
         ["/creds/dir/storageKey"; "/creds/dir/storageAccount"]],
      Ok 300)
  /\ getLatestCredentialsModifiedTime_outcome bothVariablesSet ["/creds/credentials.json"]
     = Ok 100.
Proof. repeat split. Qed.

(* ================================================================== *)
(** * Save: chunking arithmetic *)

Lemma wrap64_small (z : Z) : - 2 ^ 63 <= z <= maxInt64 -> wrap64 z = z.
Proof.
  unfold wrap64, maxInt64. intros H.
  rewrite Z.mod_small; lia.
Qed.

(** [ceilDiv] is the ceiling of the quotient. *)
Lemma ceilDiv_bounds (size chunkSize : Z) :
  0 <= size -> 0 < chunkSize ->
  (ceilDiv size chunkSize - 1) * chunkSize < size <= ceilDiv size chunkSize * chunkSize.
Proof.
  intros Hs Hc. unfold ceilDiv.
  pose proof (Z.div_mod (size + chunkSize - 1) chunkSize ltac:(lia)) as Hdm.
  pose proof (Z.mod_pos_bound (size + chunkSize - 1) chunkSize Hc) as Hm.
  nia.
Qed.

Lemma ceilDiv_nonneg (size chunkSize : Z) :
  0 <= size -> 0 < chunkSize -> 0 <= ceilDiv size chunkSize.
Proof.
  intros Hs Hc. unfold ceilDiv. apply Z.div_pos; lia.
Qed.


Lemma noOfChunksOf_ceilDiv (size chunkSize : Z) :
  0 <= size <= maxInt64 -> 0 < chunkSize ->
  noOfChunksOf size chunkSize = ceilDiv size chunkSize.
Proof.
  intros Hs Hc. unfold noOfChunksOf.
  rewrite Z.quot_div_nonneg by lia. rewrite Z.rem_mod_nonneg by lia.
  pose proof (Z.div_mod size chunkSize ltac:(lia)) as Hdm.
  pose proof (Z.mod_pos_bound size chunkSize Hc) as Hm.
  assert (Hq : 0 <= size / chunkSize) by (apply Z.div_pos; lia).
  assert (Hq' : size / chunkSize <= size) by (apply Z.div_le_upper_bound; nia).
  rewrite (wrap64_small (size / chunkSize)) by (unfold maxInt64 in *; lia).
  unfold ceilDiv.
  destruct (Z.eqb_spec (size mod chunkSize) 0) as [E|E]; cbn [negb].
  - apply (Z.div_unique _ _ _ (chunkSize - 1)); lia.
  - rewrite wrap64_small by (unfold maxInt64 in *; nia).
    apply (Z.div_unique _ _ _ (size mod chunkSize - 1)); lia.
Qed.

Section Chunking.

Variables size chunkSize : Z.
Hypothesis inRange : sizesInRange size chunkSize.

Let N : nat := Z.to_nat (ceilDiv size chunkSize).

Lemma N_ceilDiv : Z.of_nat N = ceilDiv size chunkSize.
Proof.
  destruct inRange as (Hs & Hc & _). subst N.
  apply Z2Nat.id. apply ceilDiv_nonneg; assumption.
Qed.

(** The loop of line 337 queues the chunks [k], [k+1], ... up to the last
    when it has the fuel for them, and runs out of fuel otherwise. *)
Lemma queueChunks_from (n : nat) :
  forall (k fuel : nat),
    (k + n = N)%nat ->
    queueChunks fuel size chunkSize (Z.of_nat k * chunkSize) (Z.of_nat k + 1) =
    if (n <=? fuel)%nat then Some (map (chunkAt chunkSize) (seq k n)) else None.
Proof.
  destruct inRange as (Hs & Hc & Hmax).
  pose proof (ceilDiv_bounds size chunkSize Hs Hc) as Hb.
  pose proof N_ceilDiv as HN.
  induction n as [|n IH]; intros k fuel Hk.
  - assert (E : (Z.of_nat k * chunkSize <? size) = false).
    { apply Z.ltb_ge. rewrite <- HN in Hb. replace k with N by lia. lia. }
    destruct fuel; cbn [queueChunks]; rewrite E; reflexivity.
  - assert (E : (Z.of_nat k * chunkSize <? size) = true).
    { apply Z.ltb_lt. rewrite <- HN in Hb. nia. }
    destruct fuel as [|fuel]; cbn [queueChunks]; rewrite E; [reflexivity|].
    assert (Hoff : wrap64 (Z.of_nat k * chunkSize + chunkSize) =
                   Z.of_nat (S k) * chunkSize).
    { rewrite wrap64_small; [lia|]. rewrite <- HN in Hb. unfold maxInt64 in *. nia. }
    assert (Hidx : wrap64 (Z.of_nat k + 1 + 1) = Z.of_nat (S k) + 1).
    { rewrite wrap64_small; [lia|]. rewrite <- HN in Hb. unfold maxInt64 in *. nia. }
    rewrite Hoff, Hidx. rewrite (IH (S k) fuel) by lia.
    change (S n <=? S fuel)%nat with (n <=? fuel)%nat.
    destruct (n <=? fuel)%nat; reflexivity.
Qed.


End Chunking.

(* ================================================================== *)
(** * Save: the workers and the collector *)

Lemma removeNth_length {A} (l : list A) :
  forall i, (i < List.length l)%nat ->
            List.length (removeNth i l) = pred (List.length l).
Proof.
  induction l as [|x l IH]; intros i Hi; [inversion Hi|].
  destruct i as [|i]; [reflexivity|].
  cbn [removeNth List.length] in *. rewrite IH by lia.
  destruct l; [cbn in Hi; lia | reflexivity].
Qed.

Lemma nth_removeNth_Permutation {A} (d : A) (l : list A) :
  forall i, (i < List.length l)%nat -> Permutation (nth i l d :: removeNth i l) l.
Proof.
  induction l as [|x l IH]; intros i Hi; [inversion Hi|].
  destruct i as [|i]; [apply Permutation_refl|].
  cbn [nth removeNth]. cbn [List.length] in Hi.
  eapply perm_trans; [apply perm_swap|].
  apply perm_skip. apply IH. lia.
Qed.

(** Whatever the picks, the chunks complete in some order of the queue. *)
Lemma completionOrder_Permutation (n : nat) :
  forall (picks : list nat) (queue : list chunk),
    List.length queue = n -> Permutation (completionOrder n picks queue) queue.
Proof.
  induction n as [|n IH]; intros picks queue Hlen.
  - destruct queue; [apply perm_nil | discriminate].
  - destruct queue as [|c0 queue']; [discriminate|].
    cbn [completionOrder].
    set (i := (hd O picks mod List.length (c0 :: queue'))%nat).
    assert (Hi : (i < List.length (c0 :: queue'))%nat).
    { subst i. apply Nat.mod_upper_bound. discriminate. }
    eapply perm_trans; [|apply (nth_removeNth_Permutation c0 _ i Hi)].
    apply perm_skip. apply IH.
    rewrite removeNth_length by exact Hi. rewrite Hlen. reflexivity.
Qed.

Lemma delivered_length {R} (failed : R -> bool) (late : nat) (rs : list R) :
  (List.length (delivered failed late rs) <= List.length rs)%nat.
Proof.
  induction rs as [|r rs IH]; [apply Nat.le_refl|].
  cbn [delivered]. destruct (failed r); cbn [List.length].
  - rewrite length_firstn. lia.
  - lia.
Qed.


(** A collector that is sent no more results than it waits for returns the
    first failed one, if there is any. *)
Lemma collectChunkUploadError_failed (resCh : list chunkUploadResult) :
  forall noOfChunks,
    (List.length resCh <= noOfChunks)%nat ->
    Exists (fun r => err r <> None) resCh ->
    exists r, collectChunkUploadError resCh noOfChunks = Some (Some r)
              /\ In r resCh /\ err r <> None.
Proof.
  induction resCh as [|r resCh IH]; intros n Hlen Hex; [inversion Hex|].
  destruct n as [|n]; [cbn in Hlen; lia|].
  cbn [collectChunkUploadError].
  destruct (err r) as [e|] eqn:E.
  - exists r. split; [reflexivity|]. split; [left; reflexivity|]. rewrite E. discriminate.
  - inversion Hex as [? ? Hr|? ? Hrest]; subst; [rewrite E in Hr; contradiction|].
    destruct (IH n ltac:(cbn in Hlen; lia) Hrest) as (r' & Hc & Hin & Herr).
    exists r'. split; [exact Hc|]. split; [right; exact Hin | exact Herr].
Qed.



Lemma blockUploaderStep_calls backend adaptPrefix a snap file c :
  Forall (fun x => isStageBlock x = true)
         (snd (blockUploaderStep backend adaptPrefix a snap file c)).
Proof.
  unfold blockUploaderStep, uploadBlock.
  destruct (Stat file); [|constructor].
  destruct (StageBlock_outcome backend _ _ _ _); cbn [snd];
    repeat constructor.
Qed.

Lemma workerResults_length backend adaptPrefix a snap file run chunks :
  (List.length (workerResults backend adaptPrefix a snap file run chunks)
   <= List.length chunks)%nat.
Proof.
  unfold workerResults.
  destruct (maxParallelChunkUploads a <=? 0); [apply Nat.le_0_l|].
  eapply Nat.le_trans; [apply delivered_length|].
  rewrite length_map.
  rewrite (Permutation_length (completionOrder_Permutation _ (picks run) chunks eq_refl)).
  apply Nat.le_refl.
Qed.

Lemma delivered_incl {R} (failed : R -> bool) (late : nat) (rs : list R) :
  incl (delivered failed late rs) rs.
Proof.
  induction rs as [|r rs IH]; [apply incl_refl|].
  cbn [delivered]. destruct (failed r).
  - apply incl_cons; [left; reflexivity|].
    apply incl_tl. intros x Hx.
    rewrite <- (firstn_skipn late rs). apply in_or_app. left. exact Hx.
  - apply incl_cons; [left; reflexivity|]. apply incl_tl. exact IH.
Qed.

Lemma workerResults_calls backend adaptPrefix a snap file run chunks :
  Forall (fun x => isStageBlock x = true)
         (List.concat (map snd (workerResults backend adaptPrefix a snap file run chunks))).
Proof.
  apply Forall_concat. apply Forall_map. apply Forall_forall. intros rc Hin.
  unfold workerResults in Hin.
  destruct (maxParallelChunkUploads a <=? 0); [inversion Hin|].
  apply delivered_incl in Hin. apply in_map_iff in Hin.
  destruct Hin as (c & <- & _). apply blockUploaderStep_calls.
Qed.

(** In range, a [Save] that gets to queue its chunks has computed the
    ceiling of the quotient and queued the chunks at the multiples of the
    chunk size, for which it had the fuel. *)
Lemma uploadChunks_inr backend adaptPrefix fuel local run a snap uploads :
  sizesInRange (Copy_written local) (minChunkSize a) ->
  uploadChunks backend adaptPrefix fuel local run a snap = inr uploads ->
  CreateTemp_err local = None /\ Copy_err local = None
  /\ (Z.to_nat (ceilDiv (Copy_written local) (minChunkSize a)) <= fuel)%nat
  /\ noOfChunks uploads = ceilDiv (Copy_written local) (minChunkSize a)
  /\ queued uploads =
     map (chunkAt (minChunkSize a))
         (seq 0 (Z.to_nat (ceilDiv (Copy_written local) (minChunkSize a))))
  /\ results uploads =
     workerResults backend adaptPrefix a snap
       (mkFile (Copy_written local) (tmpfile_statErr local)) run (queued uploads).
Proof.
  intros Hrange H. pose proof Hrange as (Hs & Hc & Hmax).
  unfold uploadChunks in H.
  destruct (CreateTemp_err local); [discriminate|].
  destruct (Copy_err local); [discriminate|].
  destruct (minChunkSize a =? 0); [discriminate|].
  destruct (noOfChunksOf _ _ <? 0); [discriminate|].
  pose proof (queueChunks_from _ _ Hrange
                (Z.to_nat (ceilDiv (Copy_written local) (minChunkSize a))) O fuel
                eq_refl) as Hq.
  cbn [Z.of_nat Z.mul Z.add] in Hq. rewrite Hq in H.
  destruct (Nat.leb_spec (Z.to_nat (ceilDiv (Copy_written local) (minChunkSize a))) fuel)
    as [Hfuel|Hfuel]; [|discriminate].
  injection H as <-. cbn [noOfChunks queued results].
  repeat split; try reflexivity; try assumption.
  apply noOfChunksOf_ceilDiv; unfold maxInt64 in *; lia.
Qed.

(* ================================================================== *)
(** * Save: what the workers stage *)










(* ================================================================== *)
(** * Save: the claims *)

Lemma isStageBlock_not_commit (calls : list call) :
  Forall (fun x => isStageBlock x = true) calls ->
  forall blobName ids, ~ In (CallCommitBlockList blobName ids) calls.
Proof.
  intros Hall blobName ids Hin.
  rewrite Forall_forall in Hall. apply Hall in Hin. discriminate.
Qed.

(** C1: for sizes in range (no [int64] of [Save] wraps around), when a
    result of a chunk upload of a [Save] call carries an error, the call
    returns an error and [CommitBlockList] is not among the calls it made on
    the backend. *)
Theorem Save_failed_chunk_no_commit :
  forall (backend : Backend) (adaptPrefix : Snapshot -> string -> string)
         (fuel : nat) (local : Local) (run : Run) (a : ABSSnapStore) (snap : Snapshot),
    sizesInRange (Copy_written local) (minChunkSize a) ->
    Exists (fun r => err r <> None)
           (chunkUploadResults backend adaptPrefix fuel local run a snap) ->
    (exists e, fst (Save backend adaptPrefix fuel local run a snap) = Returns (Some e))
    /\ forall blobName ids,
        ~ In (CallCommitBlockList blobName ids)
             (snd (Save backend adaptPrefix fuel local run a snap)).
Proof.
  intros backend adaptPrefix fuel local run a snap Hrange Hex.
  unfold chunkUploadResults in Hex. unfold Save.
  destruct (uploadChunks backend adaptPrefix fuel local run a snap) as [ended|uploads] eqn:E;
    [inversion Hex|].
  destruct (uploadChunks_inr _ _ _ _ _ _ _ _ Hrange E)
    as (_ & _ & _ & HN & Hq & Hres).
  assert (Hlen : (List.length (map fst (results uploads))
                  <= Z.to_nat (noOfChunks uploads))%nat).
  { rewrite length_map, Hres, HN.
    eapply Nat.le_trans; [apply workerResults_length|].
    rewrite Hq, length_map, length_seq. apply Nat.le_refl. }
  destruct (collectChunkUploadError_failed _ _ Hlen Hex) as (r & Hc & _ & Herr).
  rewrite Hc. cbn [fst snd]. split.
  - eexists. reflexivity.
  - apply isStageBlock_not_commit. rewrite Hres. apply workerResults_calls.
Qed.

(** C1 on a snapshot of 25 bytes in chunks of 10: the second block is
    refused, [Save] returns the error and commits nothing. *)
Lemma Save_failed_chunk_no_commit_witness :
  (exists e, fst (Save secondBlockFails keepPrefix 5 (copied 25) secondFirst
                       exampleStore exampleSnap) = Returns (Some e))
  /\ forall blobName ids,
      ~ In (CallCommitBlockList blobName ids)
           (snd (Save secondBlockFails keepPrefix 5 (copied 25) secondFirst
                      exampleStore exampleSnap)).
Proof.
  apply (Save_failed_chunk_no_commit secondBlockFails keepPrefix 5 (copied 25) secondFirst
           exampleStore exampleSnap).
  - unfold sizesInRange, maxInt64. cbn. lia.
  - apply Exists_cons_hd. cbn. discriminate.
Defined.






(* ================================================================== *)
(** * The block identifiers *)














(* ================================================================== *)
(** * List *)

Section Sorting.

Context {A : Type}.
Variable less : A -> A -> bool.

Lemma insertLeft_Permutation (x : A) (rsorted : list A) :
  Permutation (insertLeft less x rsorted) (x :: rsorted).
Proof.
  induction rsorted as [|y rest IH]; [apply Permutation_refl|].
  cbn [insertLeft]. destruct (less x y); [|apply Permutation_refl].
  eapply perm_trans; [apply perm_skip; exact IH | apply perm_swap].
Qed.

Lemma fold_insertLeft_Permutation (data : list A) :
  forall rsorted,
    Permutation (fold_left (fun rs x => insertLeft less x rs) data rsorted)
                (data ++ rsorted).
Proof.
  induction data as [|x data IH]; intros rsorted; [apply Permutation_refl|].
  cbn [fold_left app]. eapply perm_trans; [apply IH|].
  eapply perm_trans; [apply Permutation_app_head; apply insertLeft_Permutation|].
  apply Permutation_sym. apply Permutation_middle.
Qed.

Lemma sort_Sort_Permutation (data : list A) : Permutation (sort_Sort less data) data.
Proof.
  unfold sort_Sort. eapply perm_trans; [apply Permutation_sym; apply Permutation_rev|].
  rewrite <- (app_nil_r data) at 2. apply fold_insertLeft_Permutation.
Qed.

(** The order is asymmetric. *)
Hypothesis less_asym : forall x y, less x y = true -> less y x = false.







End Sorting.

Section Listing.

Variables backupVersionV1 backupVersionV2 : string.
Variable ParseSnapshot : string -> result Snapshot.

Let snapshotsOf := snapshotsOfBlob backupVersionV1 backupVersionV2 ParseSnapshot.
Let warningsOf := warningsOfBlob backupVersionV1 backupVersionV2 ParseSnapshot.

Lemma listBlob_fold (prefix : string) (blobItems : list string) :
  forall (snapList : list Snapshot) (calls : list call),
    fold_left (listBlob backupVersionV1 backupVersionV2 ParseSnapshot prefix)
              blobItems (snapList, calls) =
    (snapList ++ flat_map (snapshotsOf prefix) blobItems,
     calls ++ flat_map (warningsOf prefix) blobItems).
Proof.
  induction blobItems as [|blobName blobItems IH]; intros snapList calls.
  - cbn. rewrite !app_nil_r. reflexivity.
  - cbn [fold_left flat_map].
    unfold listBlob at 2.
    unfold snapshotsOf, warningsOf, snapshotsOfBlob, warningsOfBlob, tagged, parsedName
      at 1.
    destruct (strings_Contains blobName backupVersionV1
              || strings_Contains blobName backupVersionV2).
    + destruct (ParseSnapshot _); rewrite IH;
        cbn [app]; rewrite <- ?app_assoc; reflexivity.
    + rewrite IH. reflexivity.
Qed.


(** The loop over a pager whose fetches all succeed. *)
Lemma listPages_ok (prefix : string) (pages : list (list string)) :
  forall (snapList : list Snapshot) (calls : list call),
    listPages backupVersionV1 backupVersionV2 ParseSnapshot prefix (map Ok pages)
              (snapList, calls) =
    (Ok (snapList ++ flat_map (snapshotsOf prefix) (List.concat pages)),
     calls ++ flat_map (callsOfPage backupVersionV1 backupVersionV2 ParseSnapshot prefix)
                       pages).
Proof.
  induction pages as [|blobItems pages IH]; intros snapList calls.
  - cbn. rewrite !app_nil_r. reflexivity.
  - cbn [map listPages fst snd]. rewrite listBlob_fold, IH.
    cbn [List.concat flat_map]. rewrite flat_map_app.
    unfold callsOfPage at 2. fold warningsOf. rewrite <- !app_assoc. reflexivity.
Qed.

End Listing.

(** ** The listing prefix *)

Lemma strings_Split_not_nil (s : string) (sep : ascii) : strings_Split s sep <> [].
Proof.
  destruct s as [|c s]; cbn [strings_Split]; [discriminate|].
  destruct (c =? sep)%char; [discriminate|].
  destruct (strings_Split s sep); discriminate.
Qed.



Lemma strings_Join_Split (p : string) : strings_Join (strings_Split p "/") "/" = p.
Proof.
  unfold strings_Join. induction p as [|c p IH]; [reflexivity|].
  cbn [strings_Split].
  destruct (strings_Split p "/") as [|piece pieces] eqn:E;
    [exfalso; exact (strings_Split_not_nil _ _ E)|].
  destruct (Ascii.eqb_spec c "/") as [->|_].
  - change (String.concat "/" ("" :: piece :: pieces))
      with (String "/" (String.concat "/" (piece :: pieces))).
    rewrite IH. reflexivity.
  - destruct pieces as [|piece' pieces].
    + cbn in IH |- *. rewrite IH. reflexivity.
    + change (String.concat "/" (String c piece :: piece' :: pieces))
        with (String c (String.concat "/" (piece :: piece' :: pieces))).
      rewrite IH. reflexivity.
Qed.


(** ** The claims on List *)





(** The loop over a pager whose fetch of one page fails: the pages before it
    are fetched, then the failing one, and no other. *)
Lemma listPages_err v1 v2 parse (prefix : string) (pages : list (list string))
      (e : error) (rest : list (result (list string))) :
  forall (snapList : list Snapshot) (calls : list call),
    listPages v1 v2 parse prefix (map Ok pages ++ Err e :: rest) (snapList, calls) =
    (Err (fmt_Errorf_w "failed to list the blobs, error: %w" [] e),
     calls ++ flat_map (callsOfPage v1 v2 parse prefix) pages ++ [CallNextPage prefix]).
Proof.
  induction pages as [|blobItems pages IH]; intros snapList calls.
  - reflexivity.
  - cbn [map app listPages fst snd]. rewrite listBlob_fold, IH.
    cbn [flat_map]. unfold callsOfPage at 3. rewrite <- !app_assoc. reflexivity.
Qed.

Lemma filter_isNextPage_callsOfPage v1 v2 parse (prefix : string)
      (pages : list (list string)) :
  List.length (filter isNextPage (flat_map (callsOfPage v1 v2 parse prefix) pages)) =
  List.length pages.
Proof.
  induction pages as [|blobItems pages IH]; [reflexivity|].
  cbn [flat_map]. rewrite filter_app, length_app, IH.
  unfold callsOfPage. cbn [filter isNextPage List.length].
  assert (H : filter isNextPage (flat_map (warningsOfBlob v1 v2 parse prefix) blobItems) = []).
  { induction blobItems as [|b bs IHb]; [reflexivity|].
    cbn [flat_map]. rewrite filter_app, IHb, app_nil_r.
    unfold warningsOfBlob. destruct (tagged v1 v2 b); [|reflexivity].
    destruct (parse _); reflexivity. }
  rewrite H. reflexivity.
Qed.

(** C9, as amended: a pager of [k] pages whose fetches succeed is fetched
    [k] times, page after page, and the result holds, sorted, one snapshot
    for every listed name that carries a version tag and parses, as many
    times as the name is listed; when the fetch of a page fails, the pages
    before it and that page are fetched, no other, and [List] returns the
    error. *)
Theorem List_fetches_page_after_page :
  forall (backend : Backend) (v1 v2 : string) (parse : string -> result Snapshot)
         (less : Snapshot -> Snapshot -> bool) (a : ABSSnapStore),
    (forall pages,
        ListBlobsFlatPager backend (listingPrefix a) = map Ok pages ->
        List backend v1 v2 parse less a =
        (Ok (sort_Sort less
               (flat_map (snapshotsOfBlob v1 v2 parse (listingPrefix a))
                         (List.concat pages))),
         flat_map (callsOfPage v1 v2 parse (listingPrefix a)) pages)
        /\ List.length (filter isNextPage (snd (List backend v1 v2 parse less a))) =
           List.length pages
        /\ Permutation
             (sort_Sort less
                (flat_map (snapshotsOfBlob v1 v2 parse (listingPrefix a))
                          (List.concat pages)))
             (flat_map (snapshotsOfBlob v1 v2 parse (listingPrefix a))
                       (List.concat pages)))
    /\ (forall pages e rest,
          ListBlobsFlatPager backend (listingPrefix a) = (map Ok pages ++ Err e :: rest)%list ->
          fst (List backend v1 v2 parse less a) =
          Err (fmt_Errorf_w "failed to list the blobs, error: %w" [] e)
          /\ List.length (filter isNextPage (snd (List backend v1 v2 parse less a))) =
             S (List.length pages)).
Proof.
  intros backend v1 v2 parse less a. split.
  - intros pages Hpager.
    assert (HList : List backend v1 v2 parse less a =
                    (Ok (sort_Sort less
                           (flat_map (snapshotsOfBlob v1 v2 parse (listingPrefix a))
                                     (List.concat pages))),
                     flat_map (callsOfPage v1 v2 parse (listingPrefix a)) pages)).
    { unfold List. rewrite Hpager, listPages_ok. reflexivity. }
    split; [exact HList|]. split.
    + rewrite HList. cbn [snd]. apply filter_isNextPage_callsOfPage.
    + apply sort_Sort_Permutation.
  - intros pages e rest Hpager.
    assert (HList : List backend v1 v2 parse less a =
                    (Err (fmt_Errorf_w "failed to list the blobs, error: %w" [] e),
                     flat_map (callsOfPage v1 v2 parse (listingPrefix a)) pages
                     ++ [CallNextPage (listingPrefix a)])%list).
    { unfold List. rewrite Hpager, listPages_err. reflexivity. }
    rewrite HList. cbn [fst snd]. split; [reflexivity|].
    rewrite filter_app, length_app, filter_isNextPage_callsOfPage.
    cbn. lia.
Qed.

(** C9 as the spec states it fails: an object that two pages list is twice
    in the result. *)
Lemma List_keeps_duplicates :
  List samePageTwice "v1" "v2" parseKnown lessByName exampleStore =
  (Ok [fullSnapshot1; fullSnapshot1], [CallNextPage "etcd-main"; CallNextPage "etcd-main"])
  /\ ~ NoDup [fullSnapshot1; fullSnapshot1].
Proof.
  split; [reflexivity|].
  intros H. inversion H as [|? ? Hnotin _]; subst. apply Hnotin. left. reflexivity.
Qed.

(** C9 at work on two pages. *)
Example List_two_pages :
  List twoPages "v1" "v2" parseKnown lessByName exampleStore =
  (Ok [fullSnapshot2; fullSnapshot1],
   [CallNextPage "etcd-main"; LogWarnf "etcd-main/v2/Backup-1518427675/garbage";
    CallNextPage "etcd-main"]).
Proof. reflexivity. Qed.

(* ================================================================== *)
(** * [path.Clean] on paths that are clean *)


Lemma append_empty_r (s : string) : (s ++ "")%string = s.
Proof. induction s as [|c s IH]; [reflexivity|]. cbn [append]. rewrite IH. reflexivity. Qed.

(** Inside an element, the bytes up to the next slash are copied. *)
Lemma cleanLoop_copy (rooted : bool) (e : string) :
  noSlash e = true ->
  forall (rest : string) (rout : list ascii) (dotdot : nat),
    cleanLoop rooted true (e ++ rest) rout dotdot =
    cleanLoop rooted true rest (rev_append (chars e) rout) dotdot.
Proof.
  induction e as [|c e IH]; intros He rest rout dotdot; [reflexivity|].
  cbn [noSlash] in He. apply andb_true_iff in He. destruct He as [Hc He].
  apply negb_true_iff in Hc.
  cbn [append cleanLoop]. rewrite Hc. rewrite (IH He). reflexivity.
Qed.

Lemma noSlash_atEndOrSlash (e rest : string) :
  noSlash e = true -> e <> ""%string -> atEndOrSlash (e ++ rest) = false.
Proof.
  destruct e as [|c e]; intros He Hne; [contradiction|].
  cbn [noSlash] in He. apply andb_true_iff in He. destruct He as [Hc _].
  apply negb_true_iff in Hc. exact Hc.
Qed.

(** At the start of a plain element that ends the path or is followed by a
    slash, the loop takes the default case of its switch. *)
Lemma cleanLoop_plain_start (c : ascii) (e rest : string) :
  plainElem (String c e) = true ->
  atEndOrSlash rest = true ->
  forall (rout : list ascii) (dotdot : nat),
    cleanLoop false false (String c (e ++ rest)) rout dotdot =
    cleanLoop false true (e ++ rest) (c :: withSlash rout) dotdot.
Proof.
  intros Hplain Hrest rout dotdot.
  unfold plainElem in Hplain.
  apply andb_true_iff in Hplain. destruct Hplain as [Hplain Hdotdot].
  apply andb_true_iff in Hplain. destruct Hplain as [Hplain Hdot].
  apply andb_true_iff in Hplain. destruct Hplain as [Hplain _].
  cbn [noSlash] in Hplain. apply andb_true_iff in Hplain. destruct Hplain as [Hc He].
  apply negb_true_iff in Hc.
  apply negb_true_iff in Hdot. apply String.eqb_neq in Hdot.
  apply negb_true_iff in Hdotdot. apply String.eqb_neq in Hdotdot.
  cbn [cleanLoop]. rewrite Hc.
  assert (Hone : ((c =? ".")%char && atEndOrSlash (e ++ rest)) = false).
  { destruct (Ascii.eqb_spec c ".") as [->|_]; [|reflexivity].
    cbn [andb]. apply noSlash_atEndOrSlash; [exact He|].
    intros ->. apply Hdot. reflexivity. }
  rewrite Hone. cbn [andb negb orb]. fold (withSlash rout).
  destruct (e ++ rest)%string as [|c1 p2] eqn:Ep; [reflexivity|].
  assert (Htwo : ((c =? ".")%char && (c1 =? ".")%char && atEndOrSlash p2) = false).
  { destruct (Ascii.eqb_spec c ".") as [->|_]; [|reflexivity].
    destruct (Ascii.eqb_spec c1 ".") as [->|_]; [|reflexivity].
    cbn [andb].
    destruct e as [|c1' e'].
    - (* the second dot would be the first byte of [rest], which is a slash *)
      cbn [append] in Ep. subst rest. cbn in Hrest. discriminate.
    - cbn [append] in Ep. injection Ep as -> <-.
      cbn [noSlash] in He. apply andb_true_iff in He. destruct He as [_ He'].
      apply noSlash_atEndOrSlash; [exact He'|].
      intros ->. apply Hdotdot. reflexivity. }
  rewrite Htwo. reflexivity.
Qed.


Lemma plainElem_noSlash (e : string) : plainElem e = true -> noSlash e = true.
Proof.
  unfold plainElem. intros H.
  apply andb_true_iff in H. destruct H as [H _].
  apply andb_true_iff in H. destruct H as [H _].
  apply andb_true_iff in H. destruct H as [H _]. exact H.
Qed.

Lemma plainElem_nonempty (e : string) : plainElem e = true -> (e =? "")%string = false.
Proof.
  unfold plainElem. intros H.
  apply andb_true_iff in H. destruct H as [H _].
  apply andb_true_iff in H. destruct H as [H _].
  apply andb_true_iff in H. destruct H as [_ H].
  apply negb_true_iff in H. exact H.
Qed.

Lemma cleanLoop_elems (elems : list string) :
  Forall (fun e => plainOrEmpty e = true) elems ->
  forall (rout : list ascii) (dotdot : nat),
    cleanLoop false false (String.concat "/" elems) rout dotdot = emit elems rout.
Proof.
  induction elems as [|e elems IH]; intros Hall rout dotdot; [reflexivity|].
  inversion Hall as [|? ? He Hrest]; subst.
  unfold plainOrEmpty in He. apply orb_true_iff in He.
  destruct elems as [|e2 elems].
  - (* the last element *)
    cbn [String.concat emit fold_left].
    destruct He as [He|He].
    + apply String.eqb_eq in He. subst e. reflexivity.
    + rewrite (plainElem_nonempty e He).
      destruct e as [|c e]; [discriminate|].
      rewrite <- (append_empty_r e) at 1.
      rewrite (cleanLoop_plain_start c e "" He eq_refl).
      rewrite (cleanLoop_copy false e); [reflexivity|].
      apply plainElem_noSlash in He. cbn [noSlash] in He.
      apply andb_true_iff in He. tauto.
  - change (String.concat "/" (e :: e2 :: elems))
      with (e ++ String "/" (String.concat "/" (e2 :: elems)))%string.
    unfold emit. cbn [fold_left]. fold (emit (e2 :: elems)).
    destruct He as [He|He].
    + apply String.eqb_eq in He. subst e. cbn [append cleanLoop String.eqb].
      change (("/" =? "/")%char) with true. cbn iota.
      apply IH. exact Hrest.
    + rewrite (plainElem_nonempty e He).
      destruct e as [|c e]; [discriminate|].
      cbn [append].
      rewrite (cleanLoop_plain_start c e
                 (String "/" (String.concat "/" (e2 :: elems))) He eq_refl).
      rewrite (cleanLoop_copy false e).
      2:{ apply plainElem_noSlash in He. cbn [noSlash] in He.
          apply andb_true_iff in He. tauto. }
      cbn [cleanLoop]. change (("/" =? "/")%char) with true. cbn iota.
      apply IH. exact Hrest.
Qed.



Lemma emitString_cons (e : string) (elems : list string) (out : string) :
  emitString (e :: elems) out =
  emitString elems (if (e =? "")%string then out
                    else if (out =? "")%string then e else (out ++ "/" ++ e)%string).
Proof. reflexivity. Qed.

Lemma chars_app (s t : string) : chars (s ++ t) = (chars s ++ chars t)%list.
Proof.
  induction s as [|c s IH]; [reflexivity|].
  cbn [append chars list_ascii_of_string app]. f_equal. exact IH.
Qed.

Lemma chars_inj (s t : string) : chars s = chars t -> s = t.
Proof.
  intros H. rewrite <- (string_of_list_ascii_of_string s),
              <- (string_of_list_ascii_of_string t).
  unfold chars in H. rewrite H. reflexivity.
Qed.

Lemma append_cancel_r (s1 s2 t : string) : (s1 ++ t = s2 ++ t)%string -> s1 = s2.
Proof.
  intros H. apply chars_inj. apply (f_equal chars) in H.
  rewrite !chars_app in H. eapply app_inv_tail. exact H.
Qed.

Lemma append_assoc (s t u : string) : ((s ++ t) ++ u = s ++ (t ++ u))%string.
Proof.
  induction s as [|c s IH]; [reflexivity|]. cbn [append]. rewrite IH. reflexivity.
Qed.

Lemma withSlash_chars (out : string) :
  withSlash (rev (chars out)) =
  if (out =? "")%string then [] else ("/"%char :: rev (chars out)).
Proof.
  unfold withSlash. rewrite length_rev.
  destruct out as [|c out]; reflexivity.
Qed.

Lemma emit_emitString (elems : list string) :
  forall out : string,
    emit elems (rev (chars out)) = rev (chars (emitString elems out)).
Proof.
  induction elems as [|e elems IH]; intros out; [reflexivity|].
  unfold emit, emitString. cbn [fold_left]. fold (emit elems) (emitString elems).
  destruct (e =? "")%string; [apply IH|].
  rewrite withSlash_chars, rev_append_rev.
  destruct (out =? "")%string eqn:E.
  - rewrite app_nil_r. apply IH.
  - rewrite <- IH. f_equal.
    rewrite !chars_app. cbn [chars list_ascii_of_string app].
    rewrite rev_app_distr. cbn [rev]. rewrite <- app_assoc. reflexivity.
Qed.

Lemma emitString_tailOf (elems : list string) :
  forall out : string,
    out <> ""%string -> emitString elems out = (out ++ tailOf elems)%string.
Proof.
  induction elems as [|e elems IH]; intros out Hout.
  - cbn. rewrite append_empty_r. reflexivity.
  - rewrite emitString_cons. cbn [tailOf].
    destruct (e =? "")%string.
    + rewrite (IH out Hout). reflexivity.
    + apply String.eqb_neq in Hout. rewrite Hout.
      rewrite IH.
      * rewrite !append_assoc. reflexivity.
      * destruct out; [apply String.eqb_neq in Hout; contradiction | discriminate].
Qed.

Lemma concat_tailOf (e : string) (rest : list string) :
  Forall (fun x => plainElem x = true) rest ->
  String.concat "/" (e :: rest) = (e ++ tailOf rest)%string.
Proof.
  revert e. induction rest as [|e2 rest IH]; intros e Hall.
  - cbn. rewrite append_empty_r. reflexivity.
  - inversion Hall as [|? ? He2 Hrest]; subst.
    change (String.concat "/" (e :: e2 :: rest))
      with (e ++ "/" ++ String.concat "/" (e2 :: rest))%string.
    rewrite (IH e2 Hrest). cbn [tailOf]. rewrite (plainElem_nonempty e2 He2).
    rewrite !append_assoc. reflexivity.
Qed.

(** [path.Clean] leaves a clean relative path as it is. *)
Lemma emitString_canonical (p : string) :
  canonicalPath p = true ->
  p <> ""%string /\ emitString (strings_Split p "/") "" = p.
Proof.
  unfold canonicalPath. intros H.
  pose proof (strings_Join_Split p) as HJ. unfold strings_Join in HJ.
  destruct (strings_Split p "/") as [|e rest] eqn:E;
    [exfalso; exact (strings_Split_not_nil _ _ E)|].
  cbn [forallb] in H. apply andb_true_iff in H. destruct H as [He Hrest].
  rewrite forallb_forall in Hrest. rewrite <- Forall_forall in Hrest.
  assert (Hne : e <> ""%string).
  { apply String.eqb_neq. apply plainElem_nonempty. exact He. }
  rewrite (concat_tailOf e rest Hrest) in HJ.
  split.
  - rewrite <- HJ. destruct e; [contradiction | discriminate].
  - rewrite emitString_cons.
    rewrite (plainElem_nonempty e He). cbn [String.eqb].
    rewrite (emitString_tailOf rest e Hne). exact HJ.
Qed.

Lemma emitString_app (l1 l2 : list string) (out : string) :
  emitString (l1 ++ l2) out = emitString l2 (emitString l1 out).
Proof. unfold emitString. apply fold_left_app. Qed.

Lemma concat_app_two (l : list string) (d n : string) :
  l <> [] ->
  String.concat "/" (l ++ [d; n]) = (((String.concat "/" l ++ "/") ++ d) ++ "/" ++ n)%string.
Proof.
  induction l as [|e l IH]; intros Hl; [contradiction|].
  destruct l as [|e2 l].
  - cbn. rewrite !append_assoc. reflexivity.
  - change (String.concat "/" ((e :: e2 :: l) ++ [d; n]))
      with (e ++ "/" ++ String.concat "/" ((e2 :: l) ++ [d; n]))%string.
    rewrite IH by discriminate.
    change (String.concat "/" (e :: e2 :: l))
      with (e ++ "/" ++ String.concat "/" (e2 :: l))%string.
    rewrite !append_assoc. reflexivity.
Qed.

(** [path.Join] of a clean relative path and two elements, each plain or
    empty: the path, then a slash and the element for each element that is
    not empty. *)
Lemma path_Join_canonical (p d n : string) :
  canonicalPath p = true -> plainOrEmpty d = true -> plainOrEmpty n = true ->
  path_Join [p; d; n] = (p ++ tailOf [d; n])%string.
Proof.
  intros Hp Hd Hn.
  destruct (emitString_canonical p Hp) as [Hne Hemit].
  assert (Hsplit : Forall (fun e => plainOrEmpty e = true) (strings_Split p "/" ++ [d; n])).
  { apply Forall_app. split.
    - unfold canonicalPath in Hp. rewrite forallb_forall in Hp.
      apply Forall_forall. intros e He. unfold plainOrEmpty.
      rewrite (Hp e He). apply orb_true_r.
    - repeat constructor; assumption. }
  assert (Hbuf : joinBuf "" [p; d; n] = String.concat "/" (strings_Split p "/" ++ [d; n])).
  { rewrite concat_app_two by apply strings_Split_not_nil.
    pose proof (strings_Join_Split p) as HJ. unfold strings_Join in HJ. rewrite HJ.
    destruct p as [|c p]; [contradiction|]. cbn. rewrite !append_assoc. reflexivity. }
  unfold path_Join. rewrite Hbuf.
  assert (Hsize : (fold_left (fun k e => (k + String.length e)%nat) [p; d; n] O =? 0)%nat
                  = false).
  { destruct p as [|c p]; [contradiction|]. cbn [fold_left String.length Nat.add].
    apply Nat.eqb_neq. lia. }
  rewrite Hsize.
  (* the buffer starts with the first byte of [p], which is no slash *)
  assert (Hclean : path_Clean (String.concat "/" (strings_Split p "/" ++ [d; n])) =
                   emitString (strings_Split p "/" ++ [d; n]) "").
  { pose proof (cleanLoop_elems _ Hsplit [] O) as Hloop.
    change (@nil ascii) with (rev (chars "")) in Hloop at 2.
    rewrite emit_emitString in Hloop.
    rewrite emitString_app, Hemit, (emitString_tailOf _ p Hne) in Hloop |- *.
    rewrite <- Hbuf in Hloop |- *.
    destruct p as [|c p]; [contradiction|].
    assert (Hc : (c =? "/")%char = false).
    { unfold canonicalPath in Hp. cbn [strings_Split] in Hp.
      destruct (c =? "/")%char; [|reflexivity].
      cbn [forallb] in Hp. discriminate. }
    change (joinBuf "" [String c p; d; n])
      with (String c ((((p ++ "/") ++ d) ++ "/") ++ n)%string) in Hloop |- *.
    unfold path_Clean. rewrite Hc, Hloop.
    destruct (rev (chars _)) as [|x l] eqn:Erev.
    - apply (f_equal (@rev ascii)) in Erev. rewrite rev_involutive in Erev.
      cbn in Erev. discriminate.
    - rewrite <- Erev, rev_involutive. unfold chars.
      apply string_of_list_ascii_of_string. }
  rewrite Hclean, emitString_app, Hemit.
  apply emitString_tailOf. exact Hne.
Qed.

(* ================================================================== *)
(** * List: the listing prefix, the names skipped and the order *)









(* ================================================================== *)
(** * The objects Fetch, Delete and Save address *)

Lemma blockUploaderStep_blob backend adaptPrefix a snap file c :
  Forall (fun x => blobOf x =
                   Some (path_Join [adaptPrefix snap (prefix a); SnapDir snap; SnapName snap]))
         (snd (blockUploaderStep backend adaptPrefix a snap file c)).
Proof.
  unfold blockUploaderStep, uploadBlock.
  destruct (Stat file); [|constructor].
  destruct (StageBlock_outcome backend _ _ _ _); cbn [snd];
    repeat constructor.
Qed.

Lemma workerResults_blob backend adaptPrefix a snap file run chunks :
  Forall (fun x => blobOf x =
                   Some (path_Join [adaptPrefix snap (prefix a); SnapDir snap; SnapName snap]))
         (List.concat (map snd (workerResults backend adaptPrefix a snap file run chunks))).
Proof.
  apply Forall_concat. apply Forall_map. apply Forall_forall. intros rc Hin.
  unfold workerResults in Hin.
  destruct (maxParallelChunkUploads a <=? 0); [inversion Hin|].
  apply delivered_incl in Hin. apply in_map_iff in Hin.
  destruct Hin as (c & <- & _). apply blockUploaderStep_blob.
Qed.

Lemma Save_blob backend adaptPrefix fuel local run a snap :
  Forall (fun x => blobOf x =
                   Some (path_Join [adaptPrefix snap (prefix a); SnapDir snap; SnapName snap]))
         (snd (Save backend adaptPrefix fuel local run a snap)).
Proof.
  unfold Save.
  destruct (uploadChunks backend adaptPrefix fuel local run a snap) as [ended|uploads] eqn:E.
  - unfold uploadChunks in E.
    destruct (CreateTemp_err local); [injection E as <-; constructor|].
    destruct (Copy_err local); [injection E as <-; constructor|].
    destruct (minChunkSize a =? 0); [injection E as <-; constructor|].
    destruct (noOfChunksOf _ _ <? 0); [injection E as <-; constructor|].
    destruct (queueChunks _ _ _ _ _); [discriminate | injection E as <-; constructor].
  - assert (Hcalls : Forall (fun x => blobOf x =
                       Some (path_Join [adaptPrefix snap (prefix a); SnapDir snap;
                                        SnapName snap]))
                            (List.concat (map snd (results uploads)))).
    { unfold uploadChunks in E.
      destruct (CreateTemp_err local); [discriminate|].
      destruct (Copy_err local); [discriminate|].
      destruct (minChunkSize a =? 0); [discriminate|].
      destruct (noOfChunksOf _ _ <? 0); [discriminate|].
      destruct (queueChunks _ _ _ _ _); [|discriminate].
      injection E as <-. cbn [results]. apply workerResults_blob. }
    destruct (collectChunkUploadError _ _) as [[r|]|]; cbn [snd]; try exact Hcalls.
    destruct (negb (workersReturn a (stoppedAfterSuccess run))); [exact Hcalls|].
    destruct (blockListFrom _ _ _); [|exact Hcalls].
    destruct (CommitBlockList_outcome backend _ _); cbn [snd];
      (apply Forall_app; split; [exact Hcalls | repeat constructor]).
Qed.

(** Clean prefixes that differ give blobs that differ. *)
Lemma different_prefix_different_blob (p1 p2 d n : string) :
  canonicalPath p1 = true -> canonicalPath p2 = true ->
  plainOrEmpty d = true -> plainOrEmpty n = true ->
  p1 <> p2 -> path_Join [p1; d; n] <> path_Join [p2; d; n].
Proof.
  intros Hp1 Hp2 Hd Hn Hdiff Heq.
  rewrite (path_Join_canonical _ _ _ Hp1 Hd Hn) in Heq.
  rewrite (path_Join_canonical _ _ _ Hp2 Hd Hn) in Heq.
  apply append_cancel_r in Heq. contradiction.
Qed.

(** C10, as amended: [Fetch] and [Delete] call the backend on the blob
    [path.Join(snap.Prefix, snap.SnapDir, snap.SnapName)], and every call of
    [Save] on the backend is on the blob
    [path.Join(adaptPrefix(snap, prefix), snap.SnapDir, snap.SnapName)].
    When the two prefixes are clean relative paths and the directory and the
    name are each one plain element or empty, different prefixes give
    different blobs. *)
Theorem Fetch_Delete_Save_blobs :
  forall (backend : Backend) (adaptPrefix : Snapshot -> string -> string)
         (fuel : nat) (local : Local) (run : Run) (a : ABSSnapStore) (snap : Snapshot),
    let read := path_Join [Prefix snap; SnapDir snap; SnapName snap] in
    let written := path_Join [adaptPrefix snap (prefix a); SnapDir snap; SnapName snap] in
    snd (Fetch backend a snap) = [CallDownloadStream read]
    /\ snd (Delete backend a snap) = [CallDelete read]
    /\ Forall (fun c => blobOf c = Some written)
              (snd (Save backend adaptPrefix fuel local run a snap))
    /\ (canonicalPath (Prefix snap) = true ->
        canonicalPath (adaptPrefix snap (prefix a)) = true ->
        plainOrEmpty (SnapDir snap) = true ->
        plainOrEmpty (SnapName snap) = true ->
        Prefix snap <> adaptPrefix snap (prefix a) ->
        read <> written).
Proof.
  intros backend adaptPrefix fuel local run a snap read written.
  split; [|split; [|split]].
  - unfold Fetch. fold read. destruct (DownloadStream_outcome backend read); reflexivity.
  - unfold Delete. fold read. destruct (Delete_outcome backend read); reflexivity.
  - apply Save_blob.
  - intros Hp1 Hp2 Hd Hn Hdiff. subst read written.
    apply different_prefix_different_blob; assumption.
Qed.

(** C10 as the spec states it fails: the snapshot's prefix and the prefix
    under which the store writes differ by a slash at the end, and [Fetch],
    [Delete] and [Save] address the same blob. *)
Lemma Save_and_Fetch_same_blob :
  Prefix exampleSnap <> keepPrefix exampleSnap (prefix trailingSlashStore)
  /\ snd (Fetch okBackend trailingSlashStore exampleSnap) =
     [CallDownloadStream "etcd-main/v2/Backup-1518427675/Full-00000000-00000120-1518427675"]
  /\ snd (Delete okBackend trailingSlashStore exampleSnap) =
     [CallDelete "etcd-main/v2/Backup-1518427675/Full-00000000-00000120-1518427675"]
  /\ Save okBackend keepPrefix 1 (copied 5) secondFirst trailingSlashStore exampleSnap =
     (Returns None,
      [CallStageBlock "etcd-main/v2/Backup-1518427675/Full-00000000-00000120-1518427675"
         "MDAwMDAwMDAwMQ==" 0 5;
       CallCommitBlockList
         "etcd-main/v2/Backup-1518427675/Full-00000000-00000120-1518427675"
         ["MDAwMDAwMDAwMQ=="]]).
Proof.
  split; [discriminate|]. repeat split.
Qed.

(** C10 at work: a snapshot listed under the legacy tag and a store that
    writes under the current one address different blobs. *)
Example Fetch_and_Save_differ :
  path_Join [Prefix fullSnapshot2; SnapDir fullSnapshot2; SnapName fullSnapshot2] <>
  path_Join [keepPrefix fullSnapshot2 (prefix exampleStore); SnapDir fullSnapshot2;
             SnapName fullSnapshot2].
Proof.
  apply different_prefix_different_blob; try reflexivity. discriminate.
Qed.
